(** * download_ribs: a shallow embedding of the RouteViews RIB post-processing

    The script [download_ribs.py] turns a RouteViews RIB dump into a map from
    origin ASN to prefixes and, per ASN, a regular expression over
    octet-aligned IPv4 tokens.  This development embeds the pure parts of the
    script (sort key, file name, prefix decomposition, the two dictionary
    builders and the aggregation loop) together with the parts of the Python
    standard library they call, and proves the properties the design document
    states about them.

    Conventions:
    - Python [int] is [Z]; Python [str] is [string]; a raised exception is the
      [Raise] constructor of [res].
    - a [dict] whose iteration order is observable is an association list,
      otherwise a [gmap]; a [set] of strings is a [gset string]. *)

From Stdlib Require Import ZArith Lia Ascii String List.
From stdpp Require Import base gmap sets list strings sorting.

Local Open Scope Z_scope.

(** ** Exceptions and fallible results *)

Inductive exn : Type :=
| AddressValueError
| NetmaskValueError
| ValueError
| OverflowError
| InvalidVersion.

Inductive res (A : Type) : Type :=
| Ok (a : A)
| Raise (e : exn).
Arguments Ok {A} a.
Arguments Raise {A} e.

Definition bind {A B : Type} (k : A -> res B) (r : res A) : res B :=
  match r with
  | Ok a => k a
  | Raise e => Raise e
  end.

#[global] Instance res_bind : MBind res := @bind.
#[global] Instance res_ret : MRet res := @Ok.

(** ** Python string primitives *)

Module Str.

(** [len(s)] *)
Definition len (s : string) : Z := Z.of_nat (String.length s).

(** [s.split(sep)] for a one-character separator: the pieces between the
    separators, always at least one piece. *)
Fixpoint split (sep : ascii) (s : string) : list string :=
  match s with
  | EmptyString => [EmptyString]
  | String c rest =>
      if Ascii.eqb c sep then EmptyString :: split sep rest
      else match split sep rest with
           | piece :: pieces => String c piece :: pieces
           | [] => [String c EmptyString]
           end
  end.

(** [s.partition(sep)[0]]: the text before the first separator, or all of
    [s] when there is none. *)
Fixpoint partition0 (sep : ascii) (s : string) : string :=
  match s with
  | EmptyString => EmptyString
  | String c rest =>
      if Ascii.eqb c sep then EmptyString else String c (partition0 sep rest)
  end.

(** [sep.join(pieces)] *)
Fixpoint join (sep : string) (pieces : list string) : string :=
  match pieces with
  | [] => EmptyString
  | [p] => p
  | p :: ps => p +:+ sep +:+ join sep ps
  end.

(** [s.startswith(t)] *)
Fixpoint startswith (s t : string) {struct t} : bool :=
  match t, s with
  | EmptyString, _ => true
  | String _ _, EmptyString => false
  | String b t', String a s' => Ascii.eqb a b && startswith s' t'
  end.

Definition is_digit (c : ascii) : bool :=
  let n := Z.of_nat (nat_of_ascii c) in (48 <=? n) && (n <=? 57).

Fixpoint all_digits (s : string) : bool :=
  match s with
  | EmptyString => true
  | String c rest => is_digit c && all_digits rest
  end.

(** [s.isascii() and s.isdigit()]: non-empty and made of [0-9] only. *)
Definition isdigit (s : string) : bool :=
  match s with
  | EmptyString => false
  | _ => all_digits s
  end.

Fixpoint int_acc (acc : Z) (s : string) : Z :=
  match s with
  | EmptyString => acc
  | String c rest => int_acc (10 * acc + (Z.of_nat (nat_of_ascii c) - 48)) rest
  end.

(** [int(s, 10)] on a string of decimal digits. *)
Definition int (s : string) : Z := int_acc 0 s.

Definition digit_char (d : Z) : ascii := ascii_of_nat (Z.to_nat (48 + d)).

Fixpoint digits (fuel : nat) (n : Z) (acc : string) : string :=
  match fuel with
  | O => acc
  | S fuel' =>
      let acc' := String (digit_char (n mod 10)) acc in
      if n <? 10 then acc' else digits fuel' (n / 10) acc'
  end.

(** [str(n)] for an integer; the fuel is the bit length, which bounds the
    number of decimal digits. *)
Definition of_int (n : Z) : string :=
  if n <? 0 then String "-"%char (digits (S (Z.to_nat (Z.log2 (- n)))) (- n) EmptyString)
  else digits (S (Z.to_nat (Z.log2 n))) n EmptyString.

(** ["%02d" % n] and wider: zero padding on the left up to [width]. *)
Fixpoint zfill (pad : nat) (s : string) : string :=
  match pad with
  | O => s
  | S pad' => String "0"%char (zfill pad' s)
  end.

Definition pad_int (width : nat) (n : Z) : string :=
  let s := of_int n in zfill (width - String.length s) s.

End Str.

(** ** The [ipaddress] module, IPv4 side *)

Module Ip.

Definition ALL_ONES : Z := 2 ^ 32 - 1.
Definition max_prefixlen : Z := 32.

(** [IPv4Network]: the network address as an integer and the prefix length. *)
Record IPv4Network : Type := mkNet { network_address : Z; prefixlen : Z }.

(** [_split_optional_netmask] *)
Definition split_optional_netmask (address : string) : res (list string) :=
  let addr := Str.split "/" address in
  if (2 <? Z.of_nat (length addr)) then Raise AddressValueError else Ok addr.

(** [_parse_octet] *)
Definition parse_octet (octet_str : string) : res Z :=
  if negb (Str.isdigit octet_str) then Raise ValueError
  else if 3 <? Str.len octet_str then Raise ValueError
  else if negb (String.eqb octet_str "0") && Str.startswith octet_str "0"
  then Raise ValueError
  else
    let octet_int := Str.int octet_str in
    if 255 <? octet_int then Raise ValueError else Ok octet_int.

Fixpoint parse_octets (octets : list string) : res (list Z) :=
  match octets with
  | [] => Ok []
  | o :: os => b ← parse_octet o; bs ← parse_octets os; Ok (b :: bs)
  end.

(** [int.from_bytes(bs, 'big')] *)
Definition from_bytes (bs : list Z) : Z :=
  fold_left (fun acc b => 256 * acc + b) bs 0.

(** [ip.to_bytes(4, 'big')] *)
Definition to_bytes4 (ip : Z) : list Z :=
  [Z.land (Z.shiftr ip 24) 255; Z.land (Z.shiftr ip 16) 255;
   Z.land (Z.shiftr ip 8) 255; Z.land ip 255].

(** [_ip_int_from_string]: any failure is reported as
    [AddressValueError]. *)
Definition ip_int_from_string (ip_str : string) : res Z :=
  if String.eqb ip_str "" then Raise AddressValueError
  else
    let octets := Str.split "." ip_str in
    if negb (Z.of_nat (length octets) =? 4) then Raise AddressValueError
    else match parse_octets octets with
         | Ok bs => Ok (from_bytes bs)
         | Raise _ => Raise AddressValueError
         end.

(** [_string_from_ip_int], which is also [str(addr)] and [addr.exploded]. *)
Definition string_from_ip_int (ip : Z) : string :=
  Str.join "." (map Str.of_int (to_bytes4 ip)).

(** [_ip_int_from_prefix] *)
Definition ip_int_from_prefix (p : Z) : Z :=
  Z.lxor ALL_ONES (Z.shiftr ALL_ONES p).

Definition netmask (net : IPv4Network) : Z := ip_int_from_prefix (prefixlen net).
Definition hostmask (net : IPv4Network) : Z := Z.lxor (netmask net) ALL_ONES.
Definition broadcast_address (net : IPv4Network) : Z :=
  Z.lor (network_address net) (hostmask net).

(** [x.bit_length()] for a non-negative integer *)
Definition bit_length (x : Z) : Z := if x =? 0 then 0 else Z.log2 x + 1.

(** [_count_righthand_zero_bits] *)
Definition count_righthand_zero_bits (number bits : Z) : Z :=
  if number =? 0 then bits
  else Z.min bits (bit_length (Z.land (Z.lnot number) (number - 1))).

(** [_prefix_from_ip_int] *)
Definition prefix_from_ip_int (ip_int : Z) : res Z :=
  let trailing_zeroes := count_righthand_zero_bits ip_int max_prefixlen in
  let p := max_prefixlen - trailing_zeroes in
  let leading_ones := Z.shiftr ip_int trailing_zeroes in
  let all_ones := Z.shiftl 1 p - 1 in
  if negb (leading_ones =? all_ones) then Raise ValueError else Ok p.

(** [_prefix_from_prefix_string] *)
Definition prefix_from_prefix_string (prefixlen_str : string) : res Z :=
  if negb (Str.isdigit prefixlen_str) then Raise NetmaskValueError
  else
    let p := Str.int prefixlen_str in
    if negb ((0 <=? p) && (p <=? max_prefixlen)) then Raise NetmaskValueError
    else Ok p.

(** [_prefix_from_ip_string]: a dotted netmask, then a dotted hostmask. *)
Definition prefix_from_ip_string (ip_str : string) : res Z :=
  match ip_int_from_string ip_str with
  | Raise _ => Raise NetmaskValueError
  | Ok ip_int =>
      match prefix_from_ip_int ip_int with
      | Ok p => Ok p
      | Raise _ =>
          match prefix_from_ip_int (Z.lxor ip_int ALL_ONES) with
          | Ok p => Ok p
          | Raise _ => Raise NetmaskValueError
          end
      end
  end.

(** [_make_netmask] for a mask given as text: the prefix length. *)
Definition make_netmask (arg : string) : res Z :=
  match prefix_from_prefix_string arg with
  | Ok p => Ok p
  | Raise _ => prefix_from_ip_string arg
  end.

(** [IPv4Network(address, strict)] for a string argument.  With host bits
    set the strict constructor raises plain [ValueError], the lenient one
    masks them off. *)
Definition IPv4Network_new (address : string) (strict : bool) : res IPv4Network :=
  parts ← split_optional_netmask address;
  match parts with
  | addr :: rest =>
      packed ← ip_int_from_string addr;
      p ← (match rest with
           | mask :: _ => make_netmask mask
           | [] => Ok max_prefixlen
           end);
      let nm := ip_int_from_prefix p in
      if negb (Z.land packed nm =? packed) then
        if strict then Raise ValueError
        else Ok (mkNet (Z.land packed nm) p)
      else Ok (mkNet packed p)
  | [] => Raise AddressValueError
  end.

(** [str(net)] *)
Definition string_of_network (net : IPv4Network) : string :=
  string_from_ip_int (network_address net) +:+ "/" +:+ Str.of_int (prefixlen net).

(** [range(start, stop, step)] for a positive step *)
Definition range (start stop step : Z) : list Z :=
  map (fun i => start + Z.of_nat i * step)
      (seq 0 (Z.to_nat ((stop - start + step - 1) / step))).

(** [net.subnets(new_prefix=np)]; each subnet is built from an aligned
    address, so the strict constructor accepts it. *)
Definition subnets (net : IPv4Network) (new_prefix : Z) : res (list IPv4Network) :=
  if prefixlen net =? max_prefixlen then Ok [net]
  else if new_prefix <? prefixlen net then Raise ValueError
  else
    let prefixlen_diff := new_prefix - prefixlen net in
    let new_prefixlen := prefixlen net + prefixlen_diff in
    if max_prefixlen <? new_prefixlen then Raise ValueError
    else
      let start := network_address net in
      let stop := broadcast_address net + 1 in
      let step := Z.shiftr (hostmask net + 1) prefixlen_diff in
      Ok (map (fun new_addr => mkNet new_addr new_prefixlen) (range start stop step)).

(** [net.hosts()]: for a /31 the whole network, for a /32 the single
    address, otherwise everything strictly between the network and the
    broadcast address. *)
Definition hosts (net : IPv4Network) : list Z :=
  if prefixlen net =? max_prefixlen - 1 then
    range (network_address net) (broadcast_address net + 1) 1
  else if prefixlen net =? max_prefixlen then [network_address net]
  else range (network_address net + 1) (broadcast_address net) 1.

(** [addr in net] *)
Definition contains (net : IPv4Network) (addr : Z) : bool :=
  (network_address net <=? addr) && (addr <=? broadcast_address net).

End Ip.

(** ** [extract_even_ipv4_networks] *)

Section Decomposer.

(** The IPv6 side of [ipaddress] is not needed in detail: the script only
    asks whether a string is an IPv6 network.  [IPv6Network address strict]
    is the constructor, [None] standing for its [AddressValueError] or
    [NetmaskValueError]. *)
Variable IPv6Net : Type.
Variable IPv6Network : string -> bool -> option IPv6Net.

Inductive network : Type :=
| V4 (net : Ip.IPv4Network)
| V6 (net : IPv6Net).

(** [ip_network(address, strict)]: IPv4 first; only address and netmask
    errors fall through to IPv6. *)
Definition ip_network (address : string) (strict : bool) : res network :=
  match Ip.IPv4Network_new address strict with
  | Ok net => Ok (V4 net)
  | Raise (AddressValueError | NetmaskValueError) =>
      match IPv6Network address strict with
      | Some net => Ok (V6 net)
      | None => Raise ValueError
      end
  | Raise e => Raise e
  end.

(** [subnet.network_address.exploded.split('.')] *)
Definition octets_of (subnet : Ip.IPv4Network) : list string :=
  Str.split "." (Ip.string_from_ip_int (Ip.network_address subnet)).

Definition octet (octets : list string) (i : nat) : string := nth i octets EmptyString.

(** The generator, as the list of values it yields; an exception of
    [ip_network] surfaces before the first value.  The test
    [net.version == 4] is the match on the constructor. *)
Definition extract_even_ipv4_networks (network : string) : res (list string) :=
  net ← ip_network network false;
  match net with
  | V6 _ => Ok []
  | V4 net =>
      let prefix := Ip.prefixlen net in
      if prefix <=? 8 then
        subs ← Ip.subnets net 8;
        Ok (map (fun subnet => octet (octets_of subnet) 0 +:+ ".") subs)
      else if prefix <=? 16 then
        subs ← Ip.subnets net 16;
        Ok (map (fun subnet =>
                   let octets := octets_of subnet in
                   octet octets 0 +:+ "." +:+ octet octets 1 +:+ ".") subs)
      else if prefix <=? 24 then
        subs ← Ip.subnets net 24;
        Ok (map (fun subnet =>
                   let octets := octets_of subnet in
                   octet octets 0 +:+ "." +:+ octet octets 1 +:+ "." +:+
                   octet octets 2 +:+ ".") subs)
      else
        Ok ([Ip.string_from_ip_int (Ip.network_address net)]
            ++ map Ip.string_from_ip_int (Ip.hosts net)
            ++ [Ip.string_from_ip_int (Ip.broadcast_address net)])
  end.

End Decomposer.

(** ** [ip_sort_key] and [sorted] *)

(** [packaging.version.Version], on the strings that prefixes are: a
    version that consists of a release segment only (one or more groups of
    decimal digits separated by dots) is accepted, and so is every dotted
    quad; a string with any other character is an [InvalidVersion] here,
    and so is every string with a colon, such as an IPv6 literal.  On
    these two kinds of string the model and the library agree.  The
    library also accepts the other forms of PEP 440 (epoch, pre, post and
    dev releases, local versions, a leading [v], surrounding white space);
    they are not modelled, and the properties of the sort key are stated
    for prefix texts only. *)
Module Version.

Record t : Type := mk { release : list Z }.

Definition new (version : string) : res t :=
  let parts := Str.split "." version in
  if forallb Str.isdigit parts then Ok (mk (map Str.int parts))
  else Raise InvalidVersion.

Fixpoint dropwhile_zero (l : list Z) : list Z :=
  match l with
  | [] => []
  | x :: l' => if x =? 0 then dropwhile_zero l' else l
  end.

(** [_cmpkey]: the release without its trailing zeros,
    [reversed(dropwhile(lambda x: x == 0, reversed(release)))]. *)
Definition cmpkey (v : t) : list Z := rev (dropwhile_zero (rev (release v))).

(** [<] on tuples of integers *)
Fixpoint tuple_lt (a b : list Z) : bool :=
  match a, b with
  | [], [] => false
  | [], _ :: _ => true
  | _ :: _, [] => false
  | x :: a', y :: b' => if x =? y then tuple_lt a' b' else x <? y
  end.

Definition lt (v w : t) : bool := tuple_lt (cmpkey v) (cmpkey w).

End Version.

(** The key is a pair [(0, Version)] or [(1, str)]. *)
Inductive sort_key : Type :=
| Key0 (v : Version.t)
| Key1 (ip : string).

Definition ip_sort_key (ip : string) : sort_key :=
  match Version.new (Str.partition0 "/" ip) with
  | Ok v => Key0 v
  | Raise _ => Key1 ip
  end.

(** [<] on keys: the first components decide unless they are equal. *)
Definition key_lt (a b : sort_key) : bool :=
  match a, b with
  | Key0 v, Key0 w => Version.lt v w
  | Key0 _, Key1 _ => true
  | Key1 _, Key0 _ => false
  | Key1 s, Key1 t => String.ltb s t
  end.

(** [sorted(l, key=key)]: a stable sort that only uses [<] on keys, written
    as insertion from the right. *)
Section Sorted.

Context {A K : Type} (key : A -> K) (lt : K -> K -> bool).

Fixpoint insert_sorted (x : A) (l : list A) : list A :=
  match l with
  | [] => [x]
  | y :: l' => if lt (key y) (key x) then y :: insert_sorted x l' else x :: l
  end.

Fixpoint sorted (l : list A) : list A :=
  match l with
  | [] => []
  | x :: l' => insert_sorted x (sorted l')
  end.

End Sorted.

(** ** [build_filename] *)

(** [datetime]: the date is carried as its proleptic Gregorian ordinal
    ([toordinal()]), which is what the arithmetic of [datetime] works on;
    year, month and day are read off it by [ord2ymd]. *)
Module Datetime.

Record datetime : Type := mk {
  ordinal : Z; hour : Z; minute : Z; second : Z; microsecond : Z
}.

Definition MAXORDINAL : Z := 3652059.

Definition DAYS_IN_MONTH : list Z := [-1; 31; 28; 31; 30; 31; 30; 31; 31; 30; 31; 30; 31].
Definition DAYS_BEFORE_MONTH : list Z :=
  [-1; 0; 31; 59; 90; 120; 151; 181; 212; 243; 273; 304; 334].

Definition days_before_year (year : Z) : Z :=
  let y := year - 1 in y * 365 + y / 4 - y / 100 + y / 400.

Definition DI400Y : Z := days_before_year 401.
Definition DI100Y : Z := days_before_year 101.
Definition DI4Y : Z := days_before_year 5.

Definition b2z (b : bool) : Z := if b then 1 else 0.

(** [_ord2ymd] *)
Definition ord2ymd (n : Z) : Z * Z * Z :=
  let n := n - 1 in
  let n400 := n / DI400Y in
  let n := n mod DI400Y in
  let year := n400 * 400 + 1 in
  let n100 := n / DI100Y in
  let n := n mod DI100Y in
  let n4 := n / DI4Y in
  let n := n mod DI4Y in
  let n1 := n / 365 in
  let n := n mod 365 in
  let year := year + n100 * 100 + n4 * 4 + n1 in
  if (n1 =? 4) || (n100 =? 4) then (year - 1, 12, 31)
  else
    let leapyear := (n1 =? 3) && (negb (n4 =? 24) || (n100 =? 3)) in
    let month := Z.shiftr (n + 50) 5 in
    let preceding :=
      nth (Z.to_nat month) DAYS_BEFORE_MONTH 0 + b2z ((2 <? month) && leapyear) in
    if n <? preceding then
      let month := month - 1 in
      let preceding :=
        preceding - (nth (Z.to_nat month) DAYS_IN_MONTH 0
                     + b2z ((month =? 2) && leapyear)) in
      (year, month, n - preceding + 1)
    else (year, month, n - preceding + 1).

Definition year (t : datetime) : Z := fst (fst (ord2ymd (ordinal t))).
Definition month (t : datetime) : Z := snd (fst (ord2ymd (ordinal t))).
Definition day (t : datetime) : Z := snd (ord2ymd (ordinal t)).

(** [t - timedelta(hours=h)]: the difference is normalised to days and
    seconds of the day; a day before year 1 or after year 9999 overflows. *)
Definition sub_hours (t : datetime) (h : Z) : res datetime :=
  let total := hour t * 3600 + minute t * 60 + second t - h * 3600 in
  let days := ordinal t + total / 86400 in
  let seconds := total mod 86400 in
  let rem := seconds mod 3600 in
  if (0 <? days) && (days <=? MAXORDINAL) then
    Ok (mk days (seconds / 3600) (rem / 60) (rem mod 60) (microsecond t))
  else Raise OverflowError.

(** One conversion of [strftime]; the script uses [%Y], [%m], [%d], [%H]. *)
Definition directive (c : ascii) (t : datetime) : string :=
  if Ascii.eqb c "Y" then Str.of_int (year t)
  else if Ascii.eqb c "m" then Str.pad_int 2 (month t)
  else if Ascii.eqb c "d" then Str.pad_int 2 (day t)
  else if Ascii.eqb c "H" then Str.pad_int 2 (hour t)
  else if Ascii.eqb c "%" then "%"
  else String "%" (String c "").

(** [t.strftime(format)] *)
Fixpoint strftime (format : string) (t : datetime) : string :=
  match format with
  | EmptyString => EmptyString
  | String c rest =>
      if Ascii.eqb c "%" then
        match rest with
        | EmptyString => String c EmptyString
        | String d rest' => directive d t +:+ strftime rest' t
        end
      else String c (strftime rest t)
  end.

End Datetime.

(** The [while] loop of [build_filename]; [None] when the fuel runs out. *)
Fixpoint last_even_hour (fuel : nat) (now : Datetime.datetime)
  : option (res Datetime.datetime) :=
  if negb (Datetime.hour now mod 2 =? 0) then
    match fuel with
    | O => None
    | S fuel' =>
        match Datetime.sub_hours now 1 with
        | Ok now' => last_even_hour fuel' now'
        | Raise e => Some (Raise e)
        end
    end
  else Some (Ok now).

(** [build_filename], on the value of [datetime.datetime.now(datetime.UTC)]. *)
Definition build_filename (fuel : nat) (now : Datetime.datetime) : option (res string) :=
  match last_even_hour fuel now with
  | None => None
  | Some (Raise e) => Some (Raise e)
  | Some (Ok now) =>
      Some (Ok (Datetime.strftime
                  "https://routeviews.org/bgpdata/%Y.%m/RIBS/rib.%Y%m%d.%H00.bz2" now))
  end.

(** ** [parse_rib_to_dict] *)

(** The origin that [mrtx.parse_mrt_file] reports for a prefix: one ASN, or
    a [set] of ASNs when the path ends in an AS_SET. *)
Inductive origin : Type :=
| Single (asn : Z)
| AsSet (asns : gset Z).

(** [asn_dict[asn].append(prefix)] on a [defaultdict(list)] *)
Definition append_prefix (prefix : string) (asn_dict : gmap Z (list string)) (asn : Z)
  : gmap Z (list string) :=
  <[asn := default [] (asn_dict !! asn) ++ [prefix]]> asn_dict.

(** The body of the aggregation loop for one item of [prefixes.items()]. *)
Definition aggregate_one (asn_dict : gmap Z (list string)) (item : string * origin)
  : gmap Z (list string) :=
  let '(prefix, asn) := item in
  match asn with
  | AsSet asns => fold_left (append_prefix prefix) (elements asns) asn_dict
  | Single asn => append_prefix prefix asn_dict asn
  end.

Definition aggregate (prefixes : list (string * origin)) : gmap Z (list string) :=
  fold_left aggregate_one prefixes ∅.

(** [parse_rib_to_dict], on the dictionary returned by
    [mrtx.parse_mrt_file], given as its items in iteration order. *)
Definition parse_rib_to_dict (prefixes : list (string * origin)) : gmap Z (list string) :=
  sorted ip_sort_key key_lt <$> aggregate prefixes.

(** ** [build_asn_to_even_prefixes] and [build_asn_to_regex] *)

(** A [for] loop whose body may raise. *)
Fixpoint for_each {A S : Type} (l : list A) (body : S -> A -> res S) (s : S) : res S :=
  match l with
  | [] => Ok s
  | x :: l' => s' ← body s x; for_each l' body s'
  end.

Section Regex.

Variable IPv6Net : Type.
Variable IPv6Network : string -> bool -> option IPv6Net.

(** The pattern that [grex] synthesises from a non-empty list of test
    cases, as [RegExpBuilder(...).without_end_anchor().build()] returns
    it.  The library is not part of the script. *)
Variable grex : list string -> string.

(** [RegExpBuilder(test_cases)...build()]: the constructor refuses an
    empty list of test cases. *)
Definition RegExpBuilder_build (test_cases : list string) : res string :=
  match test_cases with
  | [] => Raise ValueError
  | _ :: _ => Ok (grex test_cases)
  end.

(** [even_asn_dict[asn].add(even_chunk)] on a [defaultdict(set)] *)
Definition add_chunk (asn : Z) (even_asn_dict : gmap Z (gset string)) (even_chunk : string)
  : res (gmap Z (gset string)) :=
  if String.eqb even_chunk "" then Ok even_asn_dict
  else Ok (<[asn := {[even_chunk]} ∪ default ∅ (even_asn_dict !! asn)]> even_asn_dict).

Definition add_prefix (asn : Z) (even_asn_dict : gmap Z (gset string)) (prefix : string)
  : res (gmap Z (gset string)) :=
  chunks ← extract_even_ipv4_networks IPv6Net IPv6Network prefix;
  for_each chunks (add_chunk asn) even_asn_dict.

Definition add_asn (even_asn_dict : gmap Z (gset string)) (item : Z * list string)
  : res (gmap Z (gset string)) :=
  for_each (snd item) (add_prefix (fst item)) even_asn_dict.

Definition build_asn_to_even_prefixes (asn_dict : gmap Z (list string))
  : res (gmap Z (gset string)) :=
  for_each (map_to_list asn_dict) add_asn ∅.

(** One item of the dictionary comprehension. *)
Definition add_regex (regexes : gmap Z string) (item : Z * gset string)
  : res (gmap Z string) :=
  pattern ← RegExpBuilder_build (elements (snd item));
  Ok (<[fst item := pattern]> regexes).

Definition build_asn_to_regex (asn_dict : gmap Z (list string)) : res (gmap Z string) :=
  even_asn_dict ← build_asn_to_even_prefixes asn_dict;
  for_each (map_to_list even_asn_dict) add_regex ∅.

End Regex.

(** * Vocabulary of the properties *)

(** ** Strings, addresses and networks *)

(** The character occurs in the string. *)
Fixpoint occurs (c : ascii) (s : string) : bool :=
  match s with
  | EmptyString => false
  | String a rest => Ascii.eqb a c || occurs c rest
  end.

(** The prefix lengths and the byte values, for the facts that are checked
    value by value. *)
Definition prefix_lengths : list Z := map Z.of_nat (seq 0 33).
Definition byte_values : list Z := map Z.of_nat (seq 0 256).

(** A well-formed network: a prefix length in range and an address with no
    host bits. *)
Definition wf (net : Ip.IPv4Network) : Prop :=
  0 <= Ip.prefixlen net <= 32 /\
  0 <= Ip.network_address net < 2 ^ 32 /\
  Ip.network_address net mod 2 ^ (32 - Ip.prefixlen net) = 0.

(** The checks run over [prefix_lengths] and [byte_values]. *)
Definition mask_check (p : Z) : bool :=
  let nm := Ip.ip_int_from_prefix p in
  let hm := Z.lxor nm Ip.ALL_ONES in
  (hm =? Z.ones (32 - p)) && (Z.land nm hm =? 0) && (Z.lor nm hm =? Ip.ALL_ONES).

Definition octet_check (b : Z) : bool :=
  match Ip.parse_octet (Str.of_int b) with
  | Ok b' => b' =? b
  | Raise _ => false
  end.

Definition prefixlen_check (p : Z) : bool :=
  match Ip.make_netmask (Str.of_int p) with
  | Ok p' => p' =? p
  | Raise _ => false
  end.

(** The two parsed components of a network string: the address as an
    integer and the prefix length. *)
Definition parsed (address : string) (packed p : Z) : Prop :=
  exists addr rest,
    Ip.split_optional_netmask address = Ok (addr :: rest) /\
    Ip.ip_int_from_string addr = Ok packed /\
    match rest with
    | mask :: _ => Ip.make_netmask mask
    | [] => Ok Ip.max_prefixlen
    end = Ok p.

(** ** The decomposer *)

(** The tokens of the three coarse buckets, written on the address of the
    subnet. *)
Definition token (k sub : Z) : string :=
  let b := Ip.to_bytes4 sub in
  if k =? 8 then Str.of_int (nth 0 b 0) +:+ "."
  else if k =? 16 then Str.of_int (nth 0 b 0) +:+ "." +:+ Str.of_int (nth 1 b 0) +:+ "."
  else Str.of_int (nth 0 b 0) +:+ "." +:+ Str.of_int (nth 1 b 0) +:+ "." +:+
       Str.of_int (nth 2 b 0) +:+ ".".

(** The granularity that a prefix length falls into. *)
Definition bucket (p : Z) : Z := if p <=? 8 then 8 else if p <=? 16 then 16 else 24.

(** The addresses that the fine bucket yields, in order. *)
Definition fine_addresses (net : Ip.IPv4Network) : list Z :=
  [Ip.network_address net] ++ Ip.hosts net ++ [Ip.broadcast_address net].

(** ** The sort key *)

(** [a <= b] on keys, as the negation of [b < a]. *)
Definition key_le (a b : sort_key) : bool := negb (key_lt b a).

Definition keys_ordered : string -> string -> Prop :=
  fun s t => key_le (ip_sort_key s) (ip_sort_key t) = true.

(** The text before the slash is the IPv4 address [addr]. *)
Definition ipv4_text (s : string) (addr : Z) : Prop :=
  Ip.ip_int_from_string (Str.partition0 "/" s) = Ok addr.

(** The text before the slash has a colon, as every IPv6 address has. *)
Definition ipv6_text (s : string) : Prop :=
  occurs ":" (Str.partition0 "/" s) = true.

(** A prefix text: an IPv4 or an IPv6 address, then an optional mask. *)
Definition prefix_text (s : string) : Prop :=
  (exists addr, ipv4_text s addr) \/ ipv6_text s.

(** A release without its trailing zeros. *)
Definition strip (r : list Z) : list Z := rev (Version.dropwhile_zero (rev r)).

(** ** The file name *)

(** A value that [datetime.now] can return. *)
Definition valid_now (now : Datetime.datetime) : Prop :=
  1 <= Datetime.ordinal now <= Datetime.MAXORDINAL /\
  0 <= Datetime.hour now < 24 /\ 0 <= Datetime.minute now < 60 /\
  0 <= Datetime.second now < 60.

(** The URL for a given date and hour. *)
Definition rib_url (y m d h : Z) : string :=
  "https://routeviews.org/bgpdata/" +:+ Str.of_int y +:+ "." +:+ Str.pad_int 2 m +:+
  "/RIBS/rib." +:+ Str.of_int y +:+ Str.pad_int 2 m +:+ Str.pad_int 2 d +:+ "." +:+
  Str.pad_int 2 h +:+ "00.bz2".

(** ** The aggregation loop *)

(** [asn] is an origin of the item: the single origin, or a member of
    the AS_SET. *)
Definition originates (o : origin) (asn : Z) : Prop :=
  match o with
  | Single a => asn = a
  | AsSet asns => asn ∈ asns
  end.

(** What the loop maintains: no list is empty, no list repeats a prefix,
    and every prefix in the list of an ASN comes from an item already
    seen of which the ASN is an origin. *)
Definition aggregated (seen : list (string * origin)) (d : gmap Z (list string)) : Prop :=
  forall a ps, d !! a = Some ps ->
    ps <> [] /\ NoDup ps /\
    forall p, p ∈ ps -> exists o, (p, o) ∈ seen /\ originates o a.

(** ** The regex map *)

(** Every token set is non-empty. *)
Definition nonempty_sets (d : gmap Z (gset string)) : Prop :=
  forall a toks, d !! a = Some toks -> elements toks <> [].

(** What a loop over the prefixes of [asn] may do to the dictionary. *)
Definition touches_only (asn : Z) (d0 d : gmap Z (gset string)) : Prop :=
  (nonempty_sets d0 -> nonempty_sets d) /\ forall b, b <> asn -> d !! b = d0 !! b.

Section RegexVocabulary.

Variable IPv6Net : Type.
Variable IPv6Network : string -> bool -> option IPv6Net.

(** The prefix is an IPv6 network. *)
Definition is_v6 (prefix : string) : bool :=
  match ip_network IPv6Net IPv6Network prefix false with
  | Ok (V6 _ _) => true
  | _ => false
  end.

(** The token sets are non-empty, and only an ASN with a prefix that is
    not IPv6 has one. *)
Definition even_inv (asn_dict : gmap Z (list string)) (d : gmap Z (gset string)) : Prop :=
  nonempty_sets d /\
  forall a toks, d !! a = Some toks ->
    exists ps, asn_dict !! a = Some ps /\ forallb is_v6 ps = false.

End RegexVocabulary.

(** The token is in the token set of the ASN. *)
Definition has_token (d : gmap Z (gset string)) (asn : Z) (tok : string) : Prop :=
  exists toks, d !! asn = Some toks /\ tok ∈ toks.

(** ** Worked instances *)

(** An IPv6 recogniser for the instances: any text with a colon. *)
Definition colon_ipv6 : string -> bool -> option unit :=
  fun address _ => if occurs ":" address then Some tt else None.

(** A pattern synthesiser for the instances: the alternation of the test
    cases. *)
Definition alternation : list string -> string := Str.join "|".

(** * Properties *)

(** ** Strings *)

Section StrFacts.

Lemma append_nil_l (s : string) : "" +:+ s = s.
Proof. reflexivity. Qed.

Lemma append_cons (a : ascii) (s t : string) : String a s +:+ t = String a (s +:+ t).
Proof. reflexivity. Qed.

Lemma append_nil_r (s : string) : s +:+ "" = s.
Proof.
  induction s as [|a s IH]; [reflexivity | now rewrite append_cons, IH].
Qed.

Lemma append_assoc (s t u : string) : (s +:+ t) +:+ u = s +:+ t +:+ u.
Proof.
  induction s as [|a s IH]; [reflexivity | now rewrite !append_cons, IH].
Qed.

Lemma startswith_append (t rest : string) : Str.startswith (t +:+ rest) t = true.
Proof.
  induction t as [|a t IH]; [reflexivity |].
  rewrite append_cons. simpl. now rewrite Ascii.eqb_refl, IH.
Qed.

Lemma startswith_trans (s t u : string) :
  Str.startswith s t = true -> Str.startswith t u = true -> Str.startswith s u = true.
Proof.
  revert s t; induction u as [|c u IH]; intros s t Hst Htu; [now destruct s |].
  destruct t as [|b t]; [discriminate |].
  destruct s as [|a s]; [discriminate |].
  simpl in *. apply andb_true_iff in Hst as [Hab Hst], Htu as [Hbc Htu].
  apply Ascii.eqb_eq in Hab, Hbc. subst. rewrite Ascii.eqb_refl. simpl.
  now apply IH with t.
Qed.

Lemma split_no_sep (sep : ascii) (s : string) :
  occurs sep s = false -> Str.split sep s = [s].
Proof.
  induction s as [|a s IH]; simpl; [reflexivity |].
  intros H. apply orb_false_iff in H as [Ha Hs].
  rewrite Ha, (IH Hs). reflexivity.
Qed.

Lemma split_append (sep : ascii) (s t : string) :
  occurs sep s = false ->
  Str.split sep (s +:+ String sep t) = s :: Str.split sep t.
Proof.
  induction s as [|a s IH]; [rewrite append_nil_l | rewrite append_cons]; simpl.
  - intros _. now rewrite Ascii.eqb_refl.
  - intros H. apply orb_false_iff in H as [Ha Hs].
    rewrite Ha, (IH Hs). reflexivity.
Qed.

Lemma partition0_append (sep : ascii) (s t : string) :
  occurs sep s = false -> Str.partition0 sep (s +:+ String sep t) = s.
Proof.
  induction s as [|a s IH]; [rewrite append_nil_l | rewrite append_cons]; simpl.
  - intros _. now rewrite Ascii.eqb_refl.
  - intros H. apply orb_false_iff in H as [Ha Hs].
    rewrite Ha, (IH Hs). reflexivity.
Qed.

Lemma all_digits_no_sep (sep : ascii) (s : string) :
  Str.is_digit sep = false -> Str.all_digits s = true -> occurs sep s = false.
Proof.
  intros Hsep. induction s as [|a s IH]; simpl; [reflexivity |].
  intros H. apply andb_true_iff in H as [Ha Hs].
  rewrite (IH Hs), orb_false_r.
  destruct (Ascii.eqb a sep) eqn:E; [|reflexivity].
  apply Ascii.eqb_eq in E. subst. congruence.
Qed.

Lemma is_digit_digit_char (d : Z) : 0 <= d < 10 -> Str.is_digit (Str.digit_char d) = true.
Proof.
  intros H.
  assert (Hd : d = 0 \/ d = 1 \/ d = 2 \/ d = 3 \/ d = 4 \/ d = 5 \/ d = 6 \/
               d = 7 \/ d = 8 \/ d = 9) by lia.
  repeat (destruct Hd as [-> | Hd]; [reflexivity |]). now subst.
Qed.

Lemma all_digits_digits (fuel : nat) (n : Z) (acc : string) :
  Str.all_digits acc = true -> Str.all_digits (Str.digits fuel n acc) = true.
Proof.
  revert n acc. induction fuel as [|fuel IH]; intros n acc Hacc; simpl; [assumption |].
  assert (Hc : Str.all_digits (String (Str.digit_char (n mod 10)) acc) = true).
  { simpl. rewrite Hacc, andb_true_r. apply is_digit_digit_char.
    apply Z.mod_pos_bound. lia. }
  destruct (n <? 10); [exact Hc | now apply IH].
Qed.

Lemma all_digits_of_int (n : Z) : 0 <= n -> Str.all_digits (Str.of_int n) = true.
Proof.
  intros Hn. unfold Str.of_int.
  destruct (Z.ltb_spec n 0); [lia |]. now apply all_digits_digits.
Qed.

Lemma of_int_no_dot (n : Z) : 0 <= n -> occurs "." (Str.of_int n) = false.
Proof. intros Hn. apply all_digits_no_sep; [reflexivity | now apply all_digits_of_int]. Qed.

Lemma of_int_no_slash (n : Z) : 0 <= n -> occurs "/" (Str.of_int n) = false.
Proof. intros Hn. apply all_digits_no_sep; [reflexivity | now apply all_digits_of_int]. Qed.

Lemma occurs_append (c : ascii) (s t : string) :
  occurs c (s +:+ t) = occurs c s || occurs c t.
Proof.
  induction s as [|a s IH]; [reflexivity |].
  rewrite append_cons. simpl. now rewrite IH, orb_assoc.
Qed.

End StrFacts.

(** ** IPv4 addresses, masks and networks *)

Section IpFacts.

Lemma for_all_prefix_lengths (f : Z -> bool) :
  forallb f prefix_lengths = true -> forall p, 0 <= p <= 32 -> f p = true.
Proof.
  intros Hf p Hp. rewrite forallb_forall in Hf. apply Hf.
  apply in_map_iff. exists (Z.to_nat p). split; [lia | apply in_seq; lia].
Qed.

Lemma for_all_byte_values (f : Z -> bool) :
  forallb f byte_values = true -> forall b, 0 <= b < 256 -> f b = true.
Proof.
  intros Hf b Hb. rewrite forallb_forall in Hf. apply Hf.
  apply in_map_iff. exists (Z.to_nat b). split; [lia | apply in_seq; lia].
Qed.

Lemma mask_facts (p : Z) :
  0 <= p <= 32 ->
  let nm := Ip.ip_int_from_prefix p in
  let hm := Z.lxor nm Ip.ALL_ONES in
  hm = Z.ones (32 - p) /\ Z.land nm hm = 0 /\ Z.lor nm hm = Ip.ALL_ONES.
Proof.
  intros Hp.
  assert (H : mask_check p = true).
  { apply for_all_prefix_lengths; [vm_compute; reflexivity | exact Hp]. }
  unfold mask_check in H.
  apply andb_true_iff in H as [H H3]. apply andb_true_iff in H as [H1 H2].
  apply Z.eqb_eq in H1, H2, H3. auto.
Qed.

Lemma hostmask_value (net : Ip.IPv4Network) :
  0 <= Ip.prefixlen net <= 32 -> Ip.hostmask net = 2 ^ (32 - Ip.prefixlen net) - 1.
Proof.
  intros Hp. unfold Ip.hostmask, Ip.netmask.
  destruct (mask_facts _ Hp) as (-> & _). rewrite Z.ones_equiv. lia.
Qed.

Lemma land_all_ones (x : Z) : 0 <= x < 2 ^ 32 -> Z.land x Ip.ALL_ONES = x.
Proof.
  intros Hx. change Ip.ALL_ONES with (Z.ones 32).
  rewrite Z.land_ones by lia. apply Z.mod_small. exact Hx.
Qed.

Lemma land_netmask (packed p : Z) :
  0 <= packed < 2 ^ 32 -> 0 <= p <= 32 ->
  Z.land packed (Ip.ip_int_from_prefix p) = packed - packed mod 2 ^ (32 - p).
Proof.
  intros Hx Hp. destruct (mask_facts p Hp) as (Hhm & Hdisj & Hcover).
  set (nm := Ip.ip_int_from_prefix p) in *.
  set (hm := Z.lxor nm Ip.ALL_ONES) in *.
  assert (Hsplit : packed = Z.land packed nm + Z.land packed hm).
  { rewrite Z.add_nocarry_lor.
    - rewrite <- Z.land_lor_distr_r, Hcover. symmetry. now apply land_all_ones.
    - rewrite (Z.land_comm packed hm), Z.land_assoc, <- (Z.land_assoc packed nm hm).
      rewrite Hdisj, Z.land_0_r. apply Z.land_0_l. }
  assert (Hlow : Z.land packed hm = packed mod 2 ^ (32 - p)).
  { rewrite Hhm. apply Z.land_ones. lia. }
  lia.
Qed.

Lemma broadcast_value (net : Ip.IPv4Network) :
  wf net ->
  Ip.broadcast_address net = Ip.network_address net + 2 ^ (32 - Ip.prefixlen net) - 1.
Proof.
  intros (Hp & Ha & Hal). unfold Ip.broadcast_address.
  rewrite <- Z.add_nocarry_lor.
  - rewrite hostmask_value by exact Hp. lia.
  - unfold Ip.hostmask, Ip.netmask. destruct (mask_facts _ Hp) as (-> & _).
    rewrite Z.land_ones by lia. exact Hal.
Qed.

(** *** Bytes and dotted quads *)

Lemma to_bytes4_range (ip b : Z) : In b (Ip.to_bytes4 ip) -> 0 <= b < 256.
Proof.
  unfold Ip.to_bytes4. intros H.
  assert (Hb : exists x, b = Z.land x 255).
  { simpl in H. destruct H as [<- | [<- | [<- | [<- | []]]]]; eauto. }
  destruct Hb as [x ->]. change 255 with (Z.ones 8).
  rewrite Z.land_ones by lia. apply Z.mod_pos_bound. lia.
Qed.

Lemma from_bytes_to_bytes4 (ip : Z) :
  0 <= ip < 2 ^ 32 -> Ip.from_bytes (Ip.to_bytes4 ip) = ip.
Proof.
  intros Hip. unfold Ip.from_bytes, Ip.to_bytes4. simpl.
  change 255 with (Z.ones 8). rewrite !Z.land_ones by lia.
  rewrite !Z.shiftr_div_pow2 by lia.
  change (2 ^ 8) with 256. change (2 ^ 16) with 65536.
  change (2 ^ 24) with 16777216. change (2 ^ 32) with 4294967296 in Hip.
  Z.to_euclidean_division_equations. lia.
Qed.

Lemma from_bytes_range (b0 b1 b2 b3 : Z) :
  0 <= b0 < 256 -> 0 <= b1 < 256 -> 0 <= b2 < 256 -> 0 <= b3 < 256 ->
  0 <= Ip.from_bytes [b0; b1; b2; b3] < 2 ^ 32.
Proof. intros. unfold Ip.from_bytes. simpl. lia. Qed.

Lemma parse_octet_of_int (b : Z) :
  0 <= b < 256 -> Ip.parse_octet (Str.of_int b) = Ok b.
Proof.
  intros Hb.
  assert (H : octet_check b = true).
  { apply for_all_byte_values; [vm_compute; reflexivity | exact Hb]. }
  unfold octet_check in H.
  destruct (Ip.parse_octet (Str.of_int b)) as [b'|]; [|discriminate].
  apply Z.eqb_eq in H. now subst.
Qed.

Lemma make_netmask_of_int (p : Z) :
  0 <= p <= 32 -> Ip.make_netmask (Str.of_int p) = Ok p.
Proof.
  intros Hp.
  assert (H : prefixlen_check p = true).
  { apply for_all_prefix_lengths; [vm_compute; reflexivity | exact Hp]. }
  unfold prefixlen_check in H.
  destruct (Ip.make_netmask (Str.of_int p)) as [p'|]; [|discriminate].
  apply Z.eqb_eq in H. now subst.
Qed.

(** The dotted quad written out. *)
Lemma string_from_ip_int_eq (ip : Z) :
  Ip.string_from_ip_int ip =
  Str.of_int (Z.land (Z.shiftr ip 24) 255) +:+ "." +:+
  Str.of_int (Z.land (Z.shiftr ip 16) 255) +:+ "." +:+
  Str.of_int (Z.land (Z.shiftr ip 8) 255) +:+ "." +:+
  Str.of_int (Z.land ip 255).
Proof. reflexivity. Qed.

Lemma split_string_from_ip_int (ip : Z) :
  Str.split "." (Ip.string_from_ip_int ip) = map Str.of_int (Ip.to_bytes4 ip).
Proof.
  assert (Hnd : forall b, In b (Ip.to_bytes4 ip) -> occurs "." (Str.of_int b) = false).
  { intros b Hb. apply of_int_no_dot. apply to_bytes4_range in Hb. lia. }
  rewrite string_from_ip_int_eq. unfold Ip.to_bytes4 in *. simpl in Hnd.
  change "." with (String "."%char "") at 1 2 3.
  rewrite !append_cons, !append_nil_l.
  rewrite !split_append by (apply Hnd; tauto).
  rewrite split_no_sep by (apply Hnd; tauto). reflexivity.
Qed.

Lemma string_from_ip_int_nonempty (ip : Z) : Ip.string_from_ip_int ip <> "".
Proof.
  rewrite string_from_ip_int_eq.
  generalize (Str.of_int (Z.land (Z.shiftr ip 24) 255)) as s.
  intros s H. apply (f_equal (occurs ".")) in H.
  rewrite occurs_append, (occurs_append _ "." _) in H.
  change (occurs "." ".") with true in H. change (occurs "." "") with false in H.
  rewrite orb_true_l, orb_true_r in H. discriminate.
Qed.

Lemma parse_octets_of_int (bs : list Z) :
  (forall b, In b bs -> 0 <= b < 256) ->
  Ip.parse_octets (map Str.of_int bs) = Ok bs.
Proof.
  induction bs as [|b bs IH]; intros H; [reflexivity |].
  simpl. rewrite parse_octet_of_int by (apply H; now left).
  simpl. rewrite IH by (intros; apply H; now right). reflexivity.
Qed.

Lemma ip_int_from_string_roundtrip (ip : Z) :
  0 <= ip < 2 ^ 32 -> Ip.ip_int_from_string (Ip.string_from_ip_int ip) = Ok ip.
Proof.
  intros Hip. unfold Ip.ip_int_from_string.
  destruct (String.eqb_spec (Ip.string_from_ip_int ip) "") as [E|_].
  { now apply string_from_ip_int_nonempty in E. }
  rewrite split_string_from_ip_int. simpl length.
  change (negb (Z.of_nat 4 =? 4)) with false. cbv iota.
  rewrite parse_octets_of_int by apply to_bytes4_range.
  now rewrite from_bytes_to_bytes4.
Qed.

Lemma string_from_ip_int_inj (x y : Z) :
  0 <= x < 2 ^ 32 -> 0 <= y < 2 ^ 32 ->
  Ip.string_from_ip_int x = Ip.string_from_ip_int y -> x = y.
Proof.
  intros Hx Hy E. apply (f_equal Ip.ip_int_from_string) in E.
  rewrite !ip_int_from_string_roundtrip in E by assumption. congruence.
Qed.

End IpFacts.

(** ** What the parsers accept *)

Section ParseFacts.

Lemma nat_of_ascii_digit (c : ascii) :
  Str.is_digit c = true -> 48 <= Z.of_nat (nat_of_ascii c) <= 57.
Proof.
  unfold Str.is_digit. intros H. apply andb_true_iff in H as [H1 H2].
  apply Z.leb_le in H1, H2. lia.
Qed.

Lemma int_acc_nonneg (s : string) (acc : Z) :
  Str.all_digits s = true -> 0 <= acc -> 0 <= Str.int_acc acc s.
Proof.
  revert acc. induction s as [|c s IH]; intros acc Hs Hacc; simpl; [assumption |].
  simpl in Hs. apply andb_true_iff in Hs as [Hc Hs].
  apply IH; [assumption |]. apply nat_of_ascii_digit in Hc. lia.
Qed.

Lemma isdigit_all_digits (s : string) : Str.isdigit s = true -> Str.all_digits s = true.
Proof. destruct s; [discriminate | trivial]. Qed.

Lemma parse_octet_range (s : string) (b : Z) :
  Ip.parse_octet s = Ok b -> 0 <= b < 256.
Proof.
  unfold Ip.parse_octet.
  destruct (Str.isdigit s) eqn:Hd; cbn [negb]; [|discriminate].
  destruct (3 <? Str.len s); [discriminate |].
  destruct (negb (String.eqb s "0") && Str.startswith s "0"); [discriminate |].
  destruct (Z.ltb_spec 255 (Str.int s)); [discriminate |].
  intros [= <-]. split; [|lia].
  apply int_acc_nonneg; [now apply isdigit_all_digits | lia].
Qed.

Lemma ip_int_from_string_range (s : string) (ip : Z) :
  Ip.ip_int_from_string s = Ok ip -> 0 <= ip < 2 ^ 32.
Proof.
  unfold Ip.ip_int_from_string.
  destruct (String.eqb s ""); [discriminate |].
  destruct (Str.split "." s) as [|o0 [|o1 [|o2 [|o3 [|o4 os]]]]]; try discriminate.
  - simpl.
    destruct (Ip.parse_octet o0) as [b0|] eqn:H0; [|discriminate].
    destruct (Ip.parse_octet o1) as [b1|] eqn:H1; [|discriminate].
    destruct (Ip.parse_octet o2) as [b2|] eqn:H2; [|discriminate].
    destruct (Ip.parse_octet o3) as [b3|] eqn:H3; [|discriminate].
    simpl. intros [= <-].
    apply parse_octet_range in H0, H1, H2, H3. now apply from_bytes_range.
  - intros H. exfalso. revert H.
    change (Z.of_nat (length (o0 :: o1 :: o2 :: o3 :: o4 :: os)))
      with (Z.of_nat (S (S (S (S (S (length os))))))).
    destruct (Z.eqb_spec (Z.of_nat (S (S (S (S (S (length os))))))) 4); [lia |].
    discriminate.
Qed.

Lemma bit_length_nonneg (x : Z) : 0 <= Ip.bit_length x.
Proof.
  unfold Ip.bit_length. destruct (x =? 0); [lia |].
  pose proof (Z.log2_nonneg x). lia.
Qed.

Lemma prefix_from_ip_int_range (x p : Z) :
  Ip.prefix_from_ip_int x = Ok p -> 0 <= p <= 32.
Proof.
  unfold Ip.prefix_from_ip_int, Ip.count_righthand_zero_bits, Ip.max_prefixlen.
  destruct (negb _); [discriminate |]. intros [= <-].
  destruct (x =? 0); [lia |].
  pose proof (bit_length_nonneg (Z.land (Z.lnot x) (x - 1))). lia.
Qed.

Lemma make_netmask_range (mask : string) (p : Z) :
  Ip.make_netmask mask = Ok p -> 0 <= p <= 32.
Proof.
  unfold Ip.make_netmask.
  destruct (Ip.prefix_from_prefix_string mask) as [q|] eqn:Hq.
  - intros [= <-]. unfold Ip.prefix_from_prefix_string, Ip.max_prefixlen in Hq.
    destruct (negb (Str.isdigit mask)); [discriminate |].
    destruct ((0 <=? Str.int mask) && (Str.int mask <=? 32)) eqn:Hr; [|discriminate].
    simpl in Hq. injection Hq as <-.
    apply andb_true_iff in Hr as [H1 H2]. apply Z.leb_le in H1, H2. lia.
  - unfold Ip.prefix_from_ip_string.
    destruct (Ip.ip_int_from_string mask) as [x|]; [|discriminate].
    destruct (Ip.prefix_from_ip_int x) as [q|] eqn:H1.
    + intros [= <-]. now apply prefix_from_ip_int_range in H1.
    + destruct (Ip.prefix_from_ip_int (Z.lxor x Ip.ALL_ONES)) as [q|] eqn:H2;
        [|discriminate].
      intros [= <-]. now apply prefix_from_ip_int_range in H2.
Qed.

Lemma parsed_range (address : string) (packed p : Z) :
  parsed address packed p -> 0 <= packed < 2 ^ 32 /\ 0 <= p <= 32.
Proof.
  intros (addr & rest & _ & Ha & Hm). split.
  - now apply ip_int_from_string_range in Ha.
  - destruct rest as [|mask rest].
    + injection Hm as <-. unfold Ip.max_prefixlen. lia.
    + now apply make_netmask_range in Hm.
Qed.

Lemma IPv4Network_new_parsed (address : string) (strict : bool) (net : Ip.IPv4Network) :
  Ip.IPv4Network_new address strict = Ok net ->
  exists packed, parsed address packed (Ip.prefixlen net) /\
    Ip.network_address net = Z.land packed (Ip.ip_int_from_prefix (Ip.prefixlen net)).
Proof.
  unfold Ip.IPv4Network_new, parsed.
  destruct (Ip.split_optional_netmask address) as [[|addr rest]|] eqn:Hs;
    simpl; try discriminate.
  destruct (Ip.ip_int_from_string addr) as [packed|] eqn:Ha; simpl; [|discriminate].
  destruct (match rest with
            | [] => Ok Ip.max_prefixlen
            | mask :: _ => Ip.make_netmask mask
            end) as [p|] eqn:Hm; simpl; [|discriminate].
  destruct (Z.eqb_spec (Z.land packed (Ip.ip_int_from_prefix p)) packed) as [E|E]; simpl.
  - intros [= <-]. simpl. exists packed. split; [|now rewrite E].
    exists addr, rest. auto.
  - destruct strict; [discriminate |]. intros [= <-]. simpl.
    exists packed. split; [|reflexivity]. exists addr, rest. auto.
Qed.

Lemma parsed_lenient (address : string) (packed p : Z) :
  parsed address packed p ->
  Ip.IPv4Network_new address false =
  Ok (Ip.mkNet (Z.land packed (Ip.ip_int_from_prefix p)) p).
Proof.
  intros (addr & rest & Hs & Ha & Hm). unfold Ip.IPv4Network_new.
  rewrite Hs. simpl. rewrite Ha. simpl. rewrite Hm. simpl.
  destruct (Z.eqb_spec (Z.land packed (Ip.ip_int_from_prefix p)) packed) as [E|E];
    simpl; [now rewrite E | reflexivity].
Qed.

Lemma parsed_strict (address : string) (packed p : Z) :
  parsed address packed p ->
  Ip.IPv4Network_new address true =
  if Z.land packed (Ip.ip_int_from_prefix p) =? packed
  then Ok (Ip.mkNet packed p) else Raise ValueError.
Proof.
  intros (addr & rest & Hs & Ha & Hm). unfold Ip.IPv4Network_new.
  rewrite Hs. simpl. rewrite Ha. simpl. rewrite Hm. simpl.
  now destruct (Z.land packed (Ip.ip_int_from_prefix p) =? packed).
Qed.

Lemma masked_wf (packed p : Z) :
  0 <= packed < 2 ^ 32 -> 0 <= p <= 32 ->
  wf (Ip.mkNet (Z.land packed (Ip.ip_int_from_prefix p)) p).
Proof.
  intros Hx Hp. unfold wf. simpl. rewrite land_netmask by assumption.
  assert (Hpos : 0 < 2 ^ (32 - p)) by (apply Z.pow_pos_nonneg; lia).
  set (m := 2 ^ (32 - p)) in *.
  pose proof (Z.mod_pos_bound packed m Hpos) as Hm.
  pose proof (Z.div_mod packed m ltac:(lia)) as Hdm.
  assert (Hq : 0 <= packed / m) by (apply Z.div_pos; lia).
  assert (Hmul : packed - packed mod m = (packed / m) * m) by lia.
  split; [lia |]. split; [nia |].
  rewrite Hmul. apply Z.mod_mul. lia.
Qed.

Lemma IPv4Network_new_wf (address : string) (strict : bool) (net : Ip.IPv4Network) :
  Ip.IPv4Network_new address strict = Ok net -> wf net.
Proof.
  intros H. destruct (IPv4Network_new_parsed _ _ _ H) as (packed & Hp & Hn).
  destruct (parsed_range _ _ _ Hp) as [Hx Hr].
  destruct net as [a p]. simpl in *. subst a. now apply masked_wf.
Qed.

(** The text of a well-formed network parses back to it, under the strict
    constructor too. *)
Lemma parsed_string_of_network (net : Ip.IPv4Network) :
  wf net -> parsed (Ip.string_of_network net) (Ip.network_address net) (Ip.prefixlen net).
Proof.
  intros (Hp & Ha & _). unfold parsed, Ip.string_of_network.
  exists (Ip.string_from_ip_int (Ip.network_address net)), [Str.of_int (Ip.prefixlen net)].
  split; [|split].
  - unfold Ip.split_optional_netmask.
    change "/" with (String "/"%char "") at 2. rewrite append_cons, append_nil_l.
    rewrite split_append, split_no_sep; [reflexivity | |].
    + apply of_int_no_slash. lia.
    + rewrite string_from_ip_int_eq. rewrite !occurs_append.
      change (occurs "/" ".") with false.
      rewrite !of_int_no_slash; [reflexivity | | | |];
        (eapply to_bytes4_range with (ip := Ip.network_address net);
         unfold Ip.to_bytes4; simpl; tauto).
  - now apply ip_int_from_string_roundtrip.
  - now apply make_netmask_of_int.
Qed.

Lemma wf_land_id (net : Ip.IPv4Network) :
  wf net ->
  Z.land (Ip.network_address net) (Ip.ip_int_from_prefix (Ip.prefixlen net)) =
  Ip.network_address net.
Proof.
  intros (Hp & Ha & Hal). rewrite land_netmask by assumption. lia.
Qed.

Lemma IPv4Network_new_string_of_network (net : Ip.IPv4Network) (strict : bool) :
  wf net -> Ip.IPv4Network_new (Ip.string_of_network net) strict = Ok net.
Proof.
  intros Hwf. pose proof (parsed_string_of_network net Hwf) as Hp.
  pose proof (wf_land_id net Hwf) as Hid.
  destruct net as [a p]. cbn [Ip.network_address Ip.prefixlen] in *. destruct strict.
  - rewrite (parsed_strict _ _ _ Hp), Hid. now rewrite Z.eqb_refl.
  - rewrite (parsed_lenient _ _ _ Hp). now rewrite Hid.
Qed.

End ParseFacts.

(** ** Ranges and subnets *)

Section RangeFacts.

Lemma in_range (start stop step x : Z) :
  0 < step ->
  In x (Ip.range start stop step) <->
  exists i, 0 <= i /\ x = start + i * step /\ x < stop.
Proof.
  intros Hstep. unfold Ip.range. rewrite in_map_iff.
  set (q := (stop - start + step - 1) / step).
  assert (Hq : forall i, 0 <= i -> (i < q <-> start + i * step < stop)).
  { intros i Hi. subst q. split; intros H.
    - assert (i + 1 <= (stop - start + step - 1) / step) by lia.
      assert ((i + 1) * step <= stop - start + step - 1).
      { etransitivity; [apply Z.mul_le_mono_nonneg_r; [lia | eassumption] |].
        rewrite Z.mul_comm. apply Z.mul_div_le. lia. }
      lia.
    - assert (i + 1 <= (stop - start + step - 1) / step); [|lia].
      apply Z.div_le_lower_bound; lia. }
  split.
  - intros (n & <- & Hn). apply in_seq in Hn. exists (Z.of_nat n).
    split; [lia |]. split; [reflexivity |]. apply Hq; lia.
  - intros (i & Hi & -> & Hlt). exists (Z.to_nat i). split; [f_equal; lia |].
    apply in_seq. apply Hq in Hlt; lia.
Qed.

Lemma in_range1 (start stop x : Z) :
  In x (Ip.range start stop 1) <-> start <= x < stop.
Proof.
  rewrite in_range by lia. split.
  - intros (i & Hi & -> & Hlt). lia.
  - intros H. exists (x - start). lia.
Qed.

Lemma length_range1 (start stop : Z) :
  start <= stop -> Z.of_nat (length (Ip.range start stop 1)) = stop - start.
Proof.
  intros H. unfold Ip.range. rewrite length_map, length_seq.
  replace (stop - start + 1 - 1) with (stop - start) by lia.
  rewrite Z.div_1_r. lia.
Qed.

Lemma NoDup_range1 (start stop : Z) : NoDup (Ip.range start stop 1).
Proof.
  unfold Ip.range. apply NoDup_fmap_2_strong; [|apply NoDup_seq].
  intros i j _ _ H. lia.
Qed.

Lemma step_value (net : Ip.IPv4Network) (k : Z) :
  0 <= Ip.prefixlen net <= k -> k <= 32 ->
  Z.shiftr (Ip.hostmask net + 1) (k - Ip.prefixlen net) = 2 ^ (32 - k).
Proof.
  intros Hp Hk. rewrite hostmask_value by lia.
  replace (2 ^ (32 - Ip.prefixlen net) - 1 + 1) with (2 ^ (32 - Ip.prefixlen net)) by lia.
  rewrite Z.shiftr_div_pow2 by lia.
  rewrite <- Z.pow_sub_r by lia. f_equal. lia.
Qed.

Lemma subnets_value (net : Ip.IPv4Network) (k : Z) :
  wf net -> Ip.prefixlen net <= k -> k < 32 ->
  Ip.subnets net k =
  Ok (map (fun a => Ip.mkNet a k)
          (Ip.range (Ip.network_address net)
                    (Ip.network_address net + 2 ^ (32 - Ip.prefixlen net))
                    (2 ^ (32 - k)))).
Proof.
  intros Hwf Hpk Hk. pose proof Hwf as (Hp & Ha & Hal).
  unfold Ip.subnets, Ip.max_prefixlen.
  destruct (Z.eqb_spec (Ip.prefixlen net) 32); [lia |].
  destruct (Z.ltb_spec k (Ip.prefixlen net)); [lia |].
  replace (Ip.prefixlen net + (k - Ip.prefixlen net)) with k by lia.
  destruct (Z.ltb_spec 32 k); [lia |].
  rewrite step_value by lia. rewrite broadcast_value by assumption.
  do 3 f_equal. lia.
Qed.

Lemma aligned_coarser (a m n : Z) :
  0 < m -> 0 < n -> a mod (m * n) = 0 -> a mod m = 0.
Proof.
  intros Hm Hn H. apply Z.mod_divide in H; [|lia]. destruct H as [q ->].
  replace (q * (m * n)) with (q * n * m) by lia. apply Z.mod_mul. lia.
Qed.

Lemma wf_aligned (net : Ip.IPv4Network) (k : Z) :
  wf net -> Ip.prefixlen net <= k -> k <= 32 ->
  Ip.network_address net mod 2 ^ (32 - k) = 0.
Proof.
  intros (Hp & Ha & Hal) Hpk Hk.
  apply aligned_coarser with (n := 2 ^ (k - Ip.prefixlen net)).
  - apply Z.pow_pos_nonneg; lia.
  - apply Z.pow_pos_nonneg; lia.
  - rewrite <- Z.pow_add_r by lia.
    now replace (32 - k + (k - Ip.prefixlen net)) with (32 - Ip.prefixlen net) by lia.
Qed.

(** The block of size [2^(32-k)] around an address of the network is one
    of the subnets enumerated at granularity [k]. *)
Lemma block_in_range (net : Ip.IPv4Network) (k x : Z) :
  wf net -> Ip.prefixlen net <= k -> k <= 32 ->
  Ip.contains net x = true ->
  In (2 ^ (32 - k) * (x / 2 ^ (32 - k)))
     (Ip.range (Ip.network_address net)
               (Ip.network_address net + 2 ^ (32 - Ip.prefixlen net))
               (2 ^ (32 - k))).
Proof.
  intros Hwf Hpk Hk Hx. pose proof Hwf as (Hp & Ha & Hal).
  unfold Ip.contains in Hx. rewrite broadcast_value in Hx by assumption.
  apply andb_true_iff in Hx as [Hlo Hhi]. apply Z.leb_le in Hlo, Hhi.
  pose proof (wf_aligned net k Hwf Hpk Hk) as Hak.
  assert (Hm : 0 < 2 ^ (32 - k)) by (apply Z.pow_pos_nonneg; lia).
  set (m := 2 ^ (32 - k)) in *.
  apply Z.mod_divide in Hak; [|lia]. destruct Hak as [a' Ea].
  apply in_range; [assumption |].
  exists (x / m - a'). 
  pose proof (Z.div_mod x m ltac:(lia)) as Hdm.
  pose proof (Z.mod_pos_bound x m Hm) as Hmod.
  assert (a' <= x / m).
  { apply Z.div_le_lower_bound; lia. }
  split; [lia |]. split; [lia |]. lia.
Qed.

End RangeFacts.

(** ** The decomposer *)

Section DecomposerFacts.

Variable IPv6Net : Type.
Variable IPv6Network : string -> bool -> option IPv6Net.

Local Abbreviation ipnet := (ip_network IPv6Net IPv6Network).
Local Abbreviation extract := (extract_even_ipv4_networks IPv6Net IPv6Network).
Local Abbreviation V4' := (V4 IPv6Net).

Lemma ip_network_V4 (s : string) (strict : bool) (net : Ip.IPv4Network) :
  Ip.IPv4Network_new s strict = Ok net -> ipnet s strict = Ok (V4' net).
Proof. unfold ip_network. now intros ->. Qed.

Lemma ip_network_V4_inv (s : string) (strict : bool) (net : Ip.IPv4Network) :
  ipnet s strict = Ok (V4' net) -> Ip.IPv4Network_new s strict = Ok net.
Proof.
  unfold ip_network.
  destruct (Ip.IPv4Network_new s strict) as [n|e]; [congruence |].
  destruct e; try discriminate; destruct (IPv6Network s strict); discriminate.
Qed.

Lemma startswith_nil (s : string) : Str.startswith s "" = true.
Proof. now destruct s. Qed.

Lemma startswith_cancel (a s t : string) :
  Str.startswith (a +:+ s) (a +:+ t) = Str.startswith s t.
Proof.
  induction a as [|c a IH]; [reflexivity |].
  rewrite !append_cons. simpl. now rewrite Ascii.eqb_refl, IH.
Qed.

Lemma octets_of_value (sub k : Z) :
  octets_of (Ip.mkNet sub k) = map Str.of_int (Ip.to_bytes4 sub).
Proof. unfold octets_of. cbn [Ip.network_address]. apply split_string_from_ip_int. Qed.

Lemma extract_coarse (s : string) (net : Ip.IPv4Network) :
  Ip.IPv4Network_new s false = Ok net -> Ip.prefixlen net <= 24 ->
  extract s =
  Ok (map (token (bucket (Ip.prefixlen net)))
          (Ip.range (Ip.network_address net)
                    (Ip.network_address net + 2 ^ (32 - Ip.prefixlen net))
                    (2 ^ (32 - bucket (Ip.prefixlen net))))).
Proof.
  intros Hnew Hp. pose proof (IPv4Network_new_wf _ _ _ Hnew) as Hwf.
  unfold extract_even_ipv4_networks. rewrite (ip_network_V4 _ _ _ Hnew).
  change (Ok (V4' net) ≫= ?f) with (f (V4' net)). cbv beta iota.
  unfold bucket.
  destruct (Z.leb_spec (Ip.prefixlen net) 8);
    [|destruct (Z.leb_spec (Ip.prefixlen net) 16);
      [|destruct (Z.leb_spec (Ip.prefixlen net) 24); [|lia]]];
    rewrite subnets_value by (assumption || lia);
    match goal with |- Ok ?l ≫= ?f = _ => change (Ok l ≫= f) with (f l) end;
    cbv beta; rewrite map_map; f_equal; apply map_ext; intros sub;
    rewrite octets_of_value; reflexivity.
Qed.

Lemma shiftr_block (x j k : Z) :
  0 <= k <= 32 -> 32 - k <= j ->
  Z.shiftr (2 ^ (32 - k) * (x / 2 ^ (32 - k))) j = Z.shiftr x j.
Proof.
  intros Hk Hj. rewrite !Z.shiftr_div_pow2 by lia.
  assert (Hm : 0 < 2 ^ (32 - k)) by (apply Z.pow_pos_nonneg; lia).
  assert (Hn : 0 < 2 ^ (j - (32 - k))) by (apply Z.pow_pos_nonneg; lia).
  replace (2 ^ j) with (2 ^ (32 - k) * 2 ^ (j - (32 - k)))
    by (rewrite <- Z.pow_add_r by lia; f_equal; lia).
  rewrite Z.div_mul_cancel_l by lia.
  rewrite Z.div_div by lia. reflexivity.
Qed.

Lemma startswith_token (k x : Z) :
  k = 8 \/ k = 16 \/ k = 24 ->
  Str.startswith (Ip.string_from_ip_int x)
                 (token k (2 ^ (32 - k) * (x / 2 ^ (32 - k)))) = true.
Proof.
  intros Hk. rewrite string_from_ip_int_eq. unfold token, Ip.to_bytes4.
  cbn [nth].
  destruct Hk as [-> | [-> | ->]]; cbn [Z.eqb Pos.eqb];
    rewrite ?shiftr_block by lia.
  - rewrite startswith_cancel. apply startswith_append.
  - do 3 rewrite startswith_cancel. apply startswith_append.
  - do 5 rewrite startswith_cancel. apply startswith_append.
Qed.

(** *** The fine bucket *)

Lemma extract_fine (s : string) (net : Ip.IPv4Network) :
  Ip.IPv4Network_new s false = Ok net -> 25 <= Ip.prefixlen net ->
  extract s = Ok (map Ip.string_from_ip_int (fine_addresses net)).
Proof.
  intros Hnew Hp. unfold extract_even_ipv4_networks.
  rewrite (ip_network_V4 _ _ _ Hnew).
  change (Ok (V4' net) ≫= ?f) with (f (V4' net)). cbv beta iota.
  destruct (Z.leb_spec (Ip.prefixlen net) 8); [lia |].
  destruct (Z.leb_spec (Ip.prefixlen net) 16); [lia |].
  destruct (Z.leb_spec (Ip.prefixlen net) 24); [lia |].
  unfold fine_addresses. now rewrite !map_app.
Qed.

Lemma in_fine_addresses (net : Ip.IPv4Network) (y : Z) :
  wf net -> 25 <= Ip.prefixlen net ->
  In y (fine_addresses net) <->
  Ip.network_address net <= y <= Ip.broadcast_address net.
Proof.
  intros Hwf Hp. pose proof Hwf as (Hr & Ha & Hal).
  pose proof (broadcast_value net Hwf) as Hb.
  assert (Hpow : 0 < 2 ^ (32 - Ip.prefixlen net)) by (apply Z.pow_pos_nonneg; lia).
  unfold fine_addresses, Ip.hosts, Ip.max_prefixlen.
  rewrite !in_app_iff. cbn [In].
  destruct (Z.eqb_spec (Ip.prefixlen net) (32 - 1)) as [E|E];
    [|destruct (Z.eqb_spec (Ip.prefixlen net) 32) as [E'|E']].
  - rewrite in_range1. lia.
  - rewrite E' in Hb. change (2 ^ (32 - 32)) with 1 in Hb. cbn [In]. lia.
  - rewrite in_range1.
    assert (2 <= 2 ^ (32 - Ip.prefixlen net)).
    { change 2 with (2 ^ 1) at 1. apply Z.pow_le_mono_r; lia. }
    lia.
Qed.

Lemma fine_addresses_range (net : Ip.IPv4Network) (y : Z) :
  wf net -> 25 <= Ip.prefixlen net -> In y (fine_addresses net) -> 0 <= y < 2 ^ 32.
Proof.
  intros Hwf Hp Hy. apply in_fine_addresses in Hy; [|assumption..].
  pose proof Hwf as (Hr & Ha & Hal).
  rewrite broadcast_value in Hy by assumption.
  set (m := 2 ^ (32 - Ip.prefixlen net)) in *.
  assert (Hm : 0 < m) by (apply Z.pow_pos_nonneg; lia).
  apply Z.mod_divide in Hal; [|lia]. destruct Hal as [q Hq].
  assert (Hfull : 2 ^ 32 = m * 2 ^ Ip.prefixlen net).
  { subst m. rewrite <- Z.pow_add_r by lia. f_equal. lia. }
  assert (q < 2 ^ Ip.prefixlen net) by nia.
  nia.
Qed.

Lemma fine_token_set (net : Ip.IPv4Network) :
  wf net -> 25 <= Ip.prefixlen net ->
  (list_to_set (map Ip.string_from_ip_int (fine_addresses net)) : gset string) =
  list_to_set (map Ip.string_from_ip_int
                   (Ip.range (Ip.network_address net) (Ip.broadcast_address net + 1) 1)).
Proof.
  intros Hwf Hp. apply set_eq. intros t.
  rewrite !elem_of_list_to_set, !list_elem_of_In, !in_map_iff.
  split; intros (y & <- & Hy); exists y; split; try reflexivity.
  - apply in_range1. apply in_fine_addresses in Hy; [lia | assumption..].
  - apply in_fine_addresses; [assumption.. |]. apply in_range1 in Hy. lia.
Qed.

Lemma fine_token_count (net : Ip.IPv4Network) :
  wf net -> 25 <= Ip.prefixlen net ->
  Z.of_nat (size (list_to_set (map Ip.string_from_ip_int (fine_addresses net))
                  : gset string)) = 2 ^ (32 - Ip.prefixlen net).
Proof.
  intros Hwf Hp. rewrite fine_token_set by assumption.
  pose proof Hwf as (Hr & Ha & Hal).
  assert (Hpow : 0 < 2 ^ (32 - Ip.prefixlen net)) by (apply Z.pow_pos_nonneg; lia).
  rewrite size_list_to_set.
  - rewrite length_map, length_range1; rewrite broadcast_value by assumption; lia.
  - apply NoDup_fmap_2_strong; [|apply NoDup_range1].
    intros x y Hx Hy. apply list_elem_of_In, in_range1 in Hx, Hy.
    apply string_from_ip_int_inj; eapply fine_addresses_range; try eassumption;
      apply in_fine_addresses; try assumption; lia.
Qed.

(** C1. For a prefix of length at most 24, the decomposer returns a list
    of tokens, and every address contained in the prefix starts, as a
    dotted-quad string, with one of these tokens. *)
Theorem coarse_tokens_cover_prefix (s : string) (net : Ip.IPv4Network) :
  ip_network IPv6Net IPv6Network s false = Ok (V4 IPv6Net net) ->
  Ip.prefixlen net <= 24 ->
  exists toks,
    extract_even_ipv4_networks IPv6Net IPv6Network s = Ok toks /\
    forall addr, Ip.contains net addr = true ->
      exists tok, In tok toks /\
                  Str.startswith (Ip.string_from_ip_int addr) tok = true.
Proof.
  intros Hnet Hp. apply ip_network_V4_inv in Hnet.
  pose proof (IPv4Network_new_wf _ _ _ Hnet) as Hwf.
  eexists. split; [apply (extract_coarse s net); assumption |].
  intros addr Haddr.
  set (k := bucket (Ip.prefixlen net)).
  assert (Hk : k = 8 \/ k = 16 \/ k = 24).
  { subst k. unfold bucket. destruct (_ <=? 8); [auto |]. destruct (_ <=? 16); auto. }
  assert (Hpk : Ip.prefixlen net <= k).
  { subst k. unfold bucket.
    destruct (Z.leb_spec (Ip.prefixlen net) 8); [lia |].
    destruct (Z.leb_spec (Ip.prefixlen net) 16); lia. }
  exists (token k (2 ^ (32 - k) * (addr / 2 ^ (32 - k)))). split.
  - apply in_map. apply block_in_range; try assumption. lia.
  - now apply startswith_token.
Qed.

(** C2. For a prefix of length 25 to 32, the set of distinct tokens has
    exactly [2^(32-prefixlen)] elements and holds the strings of both the
    network address and the broadcast address. *)
Theorem fine_token_set_size (s : string) (net : Ip.IPv4Network) :
  ip_network IPv6Net IPv6Network s false = Ok (V4 IPv6Net net) ->
  25 <= Ip.prefixlen net ->
  exists toks,
    extract_even_ipv4_networks IPv6Net IPv6Network s = Ok toks /\
    Z.of_nat (size (list_to_set toks : gset string)) = 2 ^ (32 - Ip.prefixlen net) /\
    Ip.string_from_ip_int (Ip.network_address net) ∈ (list_to_set toks : gset string) /\
    Ip.string_from_ip_int (Ip.broadcast_address net) ∈ (list_to_set toks : gset string).
Proof.
  intros Hnet Hp. apply ip_network_V4_inv in Hnet.
  pose proof (IPv4Network_new_wf _ _ _ Hnet) as Hwf.
  eexists. split; [apply (extract_fine s net); assumption |].
  split; [now apply fine_token_count |].
  pose proof Hwf as (Hr & Ha & Hal). pose proof (broadcast_value net Hwf) as Hb.
  assert (Hpow : 0 < 2 ^ (32 - Ip.prefixlen net)) by (apply Z.pow_pos_nonneg; lia).
  split; apply elem_of_list_to_set, list_elem_of_In, in_map,
           in_fine_addresses; try assumption; lia.
Qed.

(** C9. For a /32 the decomposer yields the one address three times, for
    a /31 each of the two addresses twice; the yielded sequence has
    duplicates and more than [2^(32-prefixlen)] entries, and only the
    set of its strings has [2^(32-prefixlen)] elements. *)
Theorem narrow_tokens_repeat (s : string) (net : Ip.IPv4Network) :
  ip_network IPv6Net IPv6Network s false = Ok (V4 IPv6Net net) ->
  31 <= Ip.prefixlen net ->
  exists toks,
    extract_even_ipv4_networks IPv6Net IPv6Network s = Ok toks /\
    (Ip.prefixlen net = 32 ->
     toks = [Ip.string_from_ip_int (Ip.network_address net);
             Ip.string_from_ip_int (Ip.network_address net);
             Ip.string_from_ip_int (Ip.network_address net)]) /\
    (Ip.prefixlen net = 31 ->
     toks = [Ip.string_from_ip_int (Ip.network_address net);
             Ip.string_from_ip_int (Ip.network_address net);
             Ip.string_from_ip_int (Ip.network_address net + 1);
             Ip.string_from_ip_int (Ip.network_address net + 1)]) /\
    ~ NoDup toks /\
    2 ^ (32 - Ip.prefixlen net) < Z.of_nat (length toks) /\
    Z.of_nat (size (list_to_set toks : gset string)) = 2 ^ (32 - Ip.prefixlen net).
Proof.
  intros Hnet Hp. apply ip_network_V4_inv in Hnet.
  pose proof (IPv4Network_new_wf _ _ _ Hnet) as Hwf.
  pose proof Hwf as (Hr & Ha & Hal). pose proof (broadcast_value net Hwf) as Hb.
  eexists. split; [apply (extract_fine s net); [assumption | lia] |].
  assert (Hshape :
    (Ip.prefixlen net = 32 ->
     fine_addresses net =
     [Ip.network_address net; Ip.network_address net; Ip.network_address net]) /\
    (Ip.prefixlen net = 31 ->
     fine_addresses net =
     [Ip.network_address net; Ip.network_address net;
      Ip.network_address net + 1; Ip.network_address net + 1])).
  { unfold fine_addresses, Ip.hosts, Ip.max_prefixlen. split; intros E.
    - rewrite E in Hb |- *. change (2 ^ (32 - 32)) with 1 in Hb.
      cbn [Z.eqb Z.sub Z.add Z.opp Z.pos_sub Pos.pred_double Pos.eqb].
      rewrite Hb. cbn [app].
      repeat (apply (f_equal2 cons); [lia |]). reflexivity.
    - rewrite E in Hb |- *. change (2 ^ (32 - 31)) with 2 in Hb.
      cbn [Z.eqb Z.sub Z.add Z.opp Z.pos_sub Pos.pred_double Pos.eqb].
      rewrite Hb. unfold Ip.range.
      replace ((Ip.network_address net + 2 - 1 + 1 - Ip.network_address net + 1 - 1) / 1)
        with 2 by (rewrite Z.div_1_r; lia).
      cbn [Z.to_nat Pos.to_nat Pos.iter_op Init.Nat.add seq map app].
      repeat (apply (f_equal2 cons); [lia |]). reflexivity. }
  destruct Hshape as [H32 H31].
  split; [intros E; now rewrite (H32 E) |].
  split; [intros E; now rewrite (H31 E) |].
  split; [|split; [|apply fine_token_count; [assumption | lia]]].
  - assert (Hcase : Ip.prefixlen net = 32 \/ Ip.prefixlen net = 31) by lia.
    destruct Hcase as [E|E]; [rewrite (H32 E) | rewrite (H31 E)];
      cbn [map]; intros Hnd; apply NoDup_cons_1_1 in Hnd;
      apply Hnd; left.
  - assert (Hcase : Ip.prefixlen net = 32 \/ Ip.prefixlen net = 31) by lia.
    destruct Hcase as [E|E]; [rewrite (H32 E) | rewrite (H31 E)]; rewrite E;
      cbn [map length]; [change (2 ^ (32 - 32)) with 1 | change (2 ^ (32 - 31)) with 2];
      lia.
Qed.

(** C10. A network string that the strict constructor rejects for its
    host bits is accepted by the decomposer, which parses leniently: it
    raises nothing and yields the very tokens it yields for the text of
    the masked network, and that text is a network the strict constructor
    accepts. *)
Theorem host_bits_are_masked (s : string) :
  Ip.IPv4Network_new s true = Raise ValueError ->
  exists net toks,
    ip_network IPv6Net IPv6Network s false = Ok (V4 IPv6Net net) /\
    Ip.IPv4Network_new (Ip.string_of_network net) true = Ok net /\
    extract_even_ipv4_networks IPv6Net IPv6Network s = Ok toks /\
    extract_even_ipv4_networks IPv6Net IPv6Network (Ip.string_of_network net) = Ok toks.
Proof.
  intros Hstrict.
  assert (Hparsed : exists packed p, parsed s packed p).
  { unfold Ip.IPv4Network_new in Hstrict. unfold parsed.
    destruct (Ip.split_optional_netmask s) as [[|addr rest]|e] eqn:Hs;
      try discriminate.
    - unfold mbind, res_bind, bind in Hstrict.
      destruct (Ip.ip_int_from_string addr) as [packed|e] eqn:Ha.
      + destruct (match rest with
                  | [] => Ok Ip.max_prefixlen
                  | mask :: _ => Ip.make_netmask mask
                  end) as [p|e] eqn:Hm.
        * exists packed, p, addr, rest. auto.
        * exfalso. destruct rest as [|mask rest]; [discriminate |].
          injection Hstrict as ->. unfold Ip.make_netmask in Hm.
          destruct (Ip.prefix_from_prefix_string mask); [discriminate |].
          unfold Ip.prefix_from_ip_string in Hm.
          destruct (Ip.ip_int_from_string mask); [|discriminate].
          destruct (Ip.prefix_from_ip_int _); [discriminate |].
          destruct (Ip.prefix_from_ip_int _); discriminate.
      + exfalso. injection Hstrict as ->. unfold Ip.ip_int_from_string in Ha.
        destruct (String.eqb addr ""); [discriminate |].
        destruct (negb _); [discriminate |].
        destruct (Ip.parse_octets _); discriminate.
    - exfalso. unfold mbind, res_bind, bind in Hstrict. injection Hstrict as ->.
      unfold Ip.split_optional_netmask in Hs. destruct (2 <? _); discriminate. }
  destruct Hparsed as (packed & p & Hparsed).
  pose proof (parsed_lenient _ _ _ Hparsed) as Hlen.
  set (net := Ip.mkNet (Z.land packed (Ip.ip_int_from_prefix p)) p) in *.
  pose proof (IPv4Network_new_wf _ _ _ Hlen) as Hwf.
  pose proof (IPv4Network_new_string_of_network net false Hwf) as Hcanon.
  assert (Htok : exists toks, extract s = Ok toks /\
                              extract (Ip.string_of_network net) = Ok toks).
  { destruct (Z.le_gt_cases (Ip.prefixlen net) 24) as [Hp|Hp].
    - eexists. split; [apply (extract_coarse s net); assumption |].
      apply (extract_coarse _ net); assumption.
    - eexists. split; [apply (extract_fine s net); (assumption || lia) |].
      apply (extract_fine _ net); (assumption || lia). }
  destruct Htok as (toks & H1 & H2).
  exists net, toks. split; [now apply ip_network_V4 |].
  split; [now apply IPv4Network_new_string_of_network |]. auto.
Qed.

End DecomposerFacts.

(** ** The sort key *)

Section SortFacts.

Lemma tuple_lt_irrefl (a : list Z) : Version.tuple_lt a a = false.
Proof. induction a as [|x a IH]; simpl; [reflexivity | now rewrite Z.eqb_refl]. Qed.

Lemma tuple_lt_trans (a b c : list Z) :
  Version.tuple_lt a b = true -> Version.tuple_lt b c = true ->
  Version.tuple_lt a c = true.
Proof.
  revert b c. induction a as [|x a IH]; intros [|y b] [|z c]; simpl; try congruence.
  destruct (Z.eqb_spec x y), (Z.eqb_spec y z), (Z.eqb_spec x z);
    try lia; try (intros H1 H2; rewrite ?Z.ltb_lt in *; lia).
  apply IH.
Qed.

Lemma tuple_lt_total (a b : list Z) :
  a = b \/ Version.tuple_lt a b = true \/ Version.tuple_lt b a = true.
Proof.
  revert b. induction a as [|x a IH]; intros [|y b]; simpl; auto.
  destruct (Z.eqb_spec x y) as [->|Hne].
  - rewrite Z.eqb_refl. destruct (IH b) as [-> | [H | H]]; auto.
  - destruct (Z.eqb_spec y x); [lia |].
    destruct (Z.ltb_spec x y), (Z.ltb_spec y x); auto; lia.
Qed.

Lemma tuple_le_trans (a b c : list Z) :
  Version.tuple_lt b a = false -> Version.tuple_lt c b = false ->
  Version.tuple_lt c a = false.
Proof.
  intros Hab Hbc. destruct (Version.tuple_lt c a) eqn:Hca; [|reflexivity].
  destruct (tuple_lt_total a b) as [-> | [H | H]]; [congruence | | congruence].
  rewrite (tuple_lt_trans c a b Hca H) in Hbc. discriminate.
Qed.

Lemma tuple_lt_asym (a b : list Z) :
  Version.tuple_lt a b = true -> Version.tuple_lt b a = false.
Proof.
  intros H. destruct (Version.tuple_lt b a) eqn:H'; [|reflexivity].
  pose proof (tuple_lt_trans _ _ _ H H') as Hc. now rewrite tuple_lt_irrefl in Hc.
Qed.

Lemma negb_ltb_leb (s t : string) : negb (String.ltb t s) = String.leb s t.
Proof.
  unfold String.ltb, String.leb. rewrite (String.compare_antisym s t).
  now destruct (String.compare t s).
Qed.

Lemma leb_trans (s t u : string) :
  String.leb s t = true -> String.leb t u = true -> String.leb s u = true.
Proof.
  intros H1 H2. apply Is_true_true. apply Is_true_true in H1, H2.
  change (String.le s u). transitivity t; assumption.
Qed.

Lemma ltb_leb (s t : string) : String.ltb s t = true -> String.leb s t = true.
Proof. unfold String.ltb, String.leb. now destruct (String.compare s t). Qed.

Lemma key_le_trans (a b c : sort_key) :
  key_le a b = true -> key_le b c = true -> key_le a c = true.
Proof.
  unfold key_le. destruct a as [v|s], b as [w|t], c as [u|r]; simpl;
    try congruence; try reflexivity.
  - unfold Version.lt. rewrite !negb_true_iff. apply tuple_le_trans.
  - rewrite !negb_ltb_leb. apply leb_trans.
Qed.

Lemma key_lt_le (a b : sort_key) : key_lt a b = true -> key_le a b = true.
Proof.
  unfold key_le. destruct a as [v|s], b as [w|t]; simpl; try congruence; try reflexivity.
  - unfold Version.lt. intros H. now rewrite (tuple_lt_asym _ _ H).
  - intros H. rewrite negb_ltb_leb. now apply ltb_leb.
Qed.

(** *** Insertion sort *)

Lemma insert_sorted_perm (x : string) (l : list string) :
  insert_sorted ip_sort_key key_lt x l ≡ₚ x :: l.
Proof.
  induction l as [|y l IH]; simpl; [reflexivity |].
  destruct (key_lt _ _); [|reflexivity].
  rewrite IH. apply Permutation_swap.
Qed.

Lemma sorted_perm (l : list string) : sorted ip_sort_key key_lt l ≡ₚ l.
Proof.
  induction l as [|x l IH]; simpl; [reflexivity |].
  now rewrite insert_sorted_perm, IH.
Qed.

Lemma insert_sorted_ordered (x : string) (l : list string) :
  StronglySorted keys_ordered l ->
  StronglySorted keys_ordered (insert_sorted ip_sort_key key_lt x l).
Proof.
  induction l as [|y l IH]; intros Hl; simpl.
  - constructor; constructor.
  - apply StronglySorted_inv in Hl as [Hl Hy].
    destruct (key_lt (ip_sort_key y) (ip_sort_key x)) eqn:Hlt.
    + constructor; [now apply IH |].
      rewrite insert_sorted_perm. constructor; [|assumption].
      now apply key_lt_le.
    + assert (Hxy : keys_ordered x y).
      { unfold keys_ordered, key_le. now rewrite Hlt. }
      constructor; [now constructor |].
      constructor; [assumption |].
      eapply Forall_impl; [exact Hy |]. intros z Hz.
      unfold keys_ordered in *. eapply key_le_trans; eassumption.
Qed.

Lemma sorted_ordered (l : list string) :
  StronglySorted keys_ordered (sorted ip_sort_key key_lt l).
Proof.
  induction l as [|x l IH]; simpl; [constructor | now apply insert_sorted_ordered].
Qed.

Lemma StronglySorted_lookup {A : Type} (R : A -> A -> Prop) (l : list A)
      (i j : nat) (x y : A) :
  StronglySorted R l -> (i < j)%nat -> l !! i = Some x -> l !! j = Some y -> R x y.
Proof.
  intros Hl. revert i j. induction Hl as [|a l Hl IH Ha]; intros i j Hij Hi Hj.
  - discriminate.
  - destruct j as [|j]; [lia |]. destruct i as [|i]; simpl in *.
    + injection Hi as <-. rewrite Forall_forall in Ha. apply Ha.
      eapply list_elem_of_lookup_2. eassumption.
    + eapply IH; [|eassumption..]. lia.
Qed.

(** *** Trailing zeros do not matter between releases of one length *)

Lemma dropwhile_zero_app (l : list Z) (x : Z) :
  Version.dropwhile_zero (l ++ [x]) =
  match Version.dropwhile_zero l with
  | [] => if x =? 0 then [] else [x]
  | l' => l' ++ [x]
  end.
Proof.
  induction l as [|y l IH]; simpl; [reflexivity |].
  destruct (y =? 0); [exact IH | reflexivity].
Qed.

Lemma strip_cons (x : Z) (r : list Z) :
  strip (x :: r) =
  match strip r with
  | [] => if x =? 0 then [] else [x]
  | l => x :: l
  end.
Proof.
  unfold strip. simpl rev at 2. rewrite dropwhile_zero_app.
  destruct (Version.dropwhile_zero (rev r)) as [|y l] eqn:E.
  - simpl. now destruct (x =? 0).
  - rewrite rev_app_distr. change (rev [x]) with [x].
    assert (Hne : rev (y :: l) <> []).
    { intros E'. apply (f_equal (@length Z)) in E'.
      rewrite length_rev in E'. discriminate. }
    destruct (rev (y :: l)); [congruence | reflexivity].
Qed.

Lemma tuple_lt_strip (a b : list Z) :
  length a = length b -> Forall (Z.le 0) a -> Forall (Z.le 0) b ->
  Version.tuple_lt (strip a) (strip b) = Version.tuple_lt a b.
Proof.
  revert b. induction a as [|x a IH]; intros [|y b] Hlen Ha Hb; try discriminate.
  - reflexivity.
  - injection Hlen as Hlen.
    apply Forall_cons_iff in Ha as [Hx Ha], Hb as [Hy Hb].
    specialize (IH b Hlen Ha Hb). rewrite !strip_cons.
    change (Version.tuple_lt (x :: a) (y :: b))
      with (if x =? y then Version.tuple_lt a b else x <? y).
    rewrite <- IH.
    destruct (Z.eqb_spec x y) as [->|Hne].
    + destruct (strip a) as [|u sa], (strip b) as [|w sb];
        destruct (Z.eqb_spec y 0); simpl; rewrite ?Z.eqb_refl; reflexivity.
    + destruct (strip a) as [|u sa], (strip b) as [|w sb];
        destruct (Z.eqb_spec x 0), (Z.eqb_spec y 0); simpl;
        try (destruct (Z.eqb_spec x y); [lia |]); try reflexivity;
        try lia; symmetry;
        try (apply Z.ltb_lt; lia); try (apply Z.ltb_ge; lia).
Qed.

Lemma int_nonneg_parts (parts : list string) :
  forallb Str.isdigit parts = true -> Forall (Z.le 0) (map Str.int parts).
Proof.
  induction parts as [|p parts IH]; simpl; intros H; constructor.
  - apply andb_true_iff in H as [H _].
    apply int_acc_nonneg; [now apply isdigit_all_digits | lia].
  - apply IH. now apply andb_true_iff in H as [_ H].
Qed.

Lemma release_nonneg (s : string) (v : Version.t) :
  Version.new s = Ok v -> Forall (Z.le 0) (Version.release v).
Proof.
  unfold Version.new. destruct (forallb _ _) eqn:H; [|discriminate].
  intros [= <-]. now apply int_nonneg_parts.
Qed.

End SortFacts.

(** ** The file name *)

Section FilenameFacts.

Import Datetime.

Lemma strftime_rib (t : datetime) :
  strftime "https://routeviews.org/bgpdata/%Y.%m/RIBS/rib.%Y%m%d.%H00.bz2" t =
  rib_url (year t) (month t) (day t) (hour t).
Proof. reflexivity. Qed.

Lemma sub_one_hour (now : datetime) :
  valid_now now -> 1 <= hour now ->
  sub_hours now 1 =
  Ok (mk (ordinal now) (hour now - 1) (minute now) (second now) (microsecond now)).
Proof.
  intros (Ho & Hh & Hm & Hs) H1. unfold sub_hours.
  set (total := hour now * 3600 + minute now * 60 + second now - 1 * 3600).
  assert (Ht : 0 <= total < 86400) by (subst total; lia).
  rewrite (Z.div_small total 86400) by lia.
  rewrite (Z.mod_small total 86400) by lia.
  replace (ordinal now + 0) with (ordinal now) by lia.
  destruct (Z.ltb_spec 0 (ordinal now)); [|lia].
  destruct (Z.leb_spec (ordinal now) MAXORDINAL); [|lia].
  cbn [andb].
  assert (E1 : total / 3600 = hour now - 1).
  { symmetry. apply (Z.div_unique total 3600 _ (minute now * 60 + second now));
      subst total; lia. }
  assert (E2 : total mod 3600 = minute now * 60 + second now).
  { symmetry. apply (Z.mod_unique total 3600 (hour now - 1)); subst total; lia. }
  rewrite E1, E2.
  assert (E3 : (minute now * 60 + second now) / 60 = minute now).
  { symmetry. apply (Z.div_unique _ 60 _ (second now)); lia. }
  assert (E4 : (minute now * 60 + second now) mod 60 = second now).
  { symmetry. apply (Z.mod_unique _ 60 (minute now)); lia. }
  now rewrite E3, E4.
Qed.

(** C8. For every valid current time and at least one unit of fuel for
    the loop, [build_filename] returns the RouteViews URL whose date is
    the current date and whose hour is the most recent even hour: the
    current hour if it is even, otherwise the hour before it. *)
Theorem build_filename_last_even_hour (now : datetime) (fuel : nat) :
  valid_now now -> (1 <= fuel)%nat ->
  let h := hour now - hour now mod 2 in
  build_filename fuel now = Some (Ok (rib_url (year now) (month now) (day now) h)) /\
  h mod 2 = 0 /\
  (hour now mod 2 = 0 -> h = hour now) /\
  (hour now mod 2 <> 0 -> h = hour now - 1).
Proof.
  intros Hv Hfuel h. pose proof Hv as (Ho & Hh & Hm & Hs).
  assert (Hmod : hour now mod 2 = 0 \/ hour now mod 2 = 1).
  { pose proof (Z.mod_pos_bound (hour now) 2). lia. }
  assert (Hh2 : h mod 2 = 0).
  { subst h. rewrite (Z.div_mod (hour now) 2) at 1 by lia.
    replace (2 * (hour now / 2) + hour now mod 2 - hour now mod 2)
      with (hour now / 2 * 2) by lia.
    apply Z.mod_mul. lia. }
  split; [|split; [exact Hh2 | split; subst h; lia]].
  unfold build_filename. destruct Hmod as [He|Hodd].
  - assert (El : last_even_hour fuel now = Some (Ok now)).
    { destruct fuel; simpl; rewrite He; reflexivity. }
    rewrite El, strftime_rib. subst h. rewrite He.
    now replace (hour now - 0) with (hour now) by lia.
  - assert (El : last_even_hour fuel now =
                 Some (Ok (mk (ordinal now) (hour now - 1) (minute now)
                              (second now) (microsecond now)))).
    { assert (H1 : 1 <= hour now).
      { destruct (Z.eq_dec (hour now) 0) as [E|E]; [|lia].
        rewrite E in Hodd. discriminate. }
      destruct fuel as [|fuel]; [lia |]. simpl. rewrite Hodd. cbn [Z.eqb negb].
      rewrite sub_one_hour by assumption.
      assert (Heven : (hour now - 1) mod 2 = 0).
      { replace (hour now - 1) with h by (subst h; lia). exact Hh2. }
      destruct fuel; simpl; rewrite Heven; reflexivity. }
    rewrite El, strftime_rib. subst h. rewrite Hodd. reflexivity.
Qed.

End FilenameFacts.

(** ** The aggregation loop *)

Section AggregateFacts.

Lemma lookup_append_prefix (prefix : string) (d : gmap Z (list string)) (a b : Z) :
  append_prefix prefix d a !! b =
  if decide (a = b) then Some (default [] (d !! a) ++ [prefix]) else d !! b.
Proof. unfold append_prefix. apply lookup_insert. Qed.

Lemma lookup_fold_append_prefix (prefix : string) (l : list Z)
      (d : gmap Z (list string)) (a : Z) :
  NoDup l ->
  fold_left (append_prefix prefix) l d !! a =
  if decide (a ∈ l) then Some (default [] (d !! a) ++ [prefix]) else d !! a.
Proof.
  revert d. induction l as [|b l IH]; intros d Hnd; simpl.
  - destruct (decide (a ∈ [])) as [H|_]; [|reflexivity]. now apply elem_of_nil in H.
  - apply NoDup_cons in Hnd as [Hb Hnd]. rewrite (IH _ Hnd).
    rewrite !lookup_append_prefix.
    destruct (decide (a ∈ l)) as [Hl|Hl].
    + destruct (decide (b = a)) as [->|Hne]; [contradiction |].
      destruct (decide (a ∈ b :: l)) as [_|H]; [reflexivity |].
      exfalso. apply H. now right.
    + destruct (decide (b = a)) as [->|Hne].
      * destruct (decide (a ∈ a :: l)) as [_|H]; [reflexivity |].
        exfalso. apply H. left.
      * destruct (decide (a ∈ b :: l)) as [H|_]; [|reflexivity].
        apply elem_of_cons in H as [->|H]; contradiction.
Qed.

(** One step of the aggregation loop on a prefix whose origin is an
    AS_SET: the list of every ASN of the set gets the prefix appended
    (and is created when the ASN is new), and the entry of every other
    ASN is left as it was. *)
Lemma as_set_fans_out (asn_dict : gmap Z (list string)) (prefix : string)
        (asns : gset Z) (asn : Z) :
  aggregate_one asn_dict (prefix, AsSet asns) !! asn =
  if decide (asn ∈ asns)
  then Some (default [] (asn_dict !! asn) ++ [prefix])
  else asn_dict !! asn.
Proof.
  unfold aggregate_one. rewrite lookup_fold_append_prefix by apply NoDup_elements.
  destruct (decide (asn ∈ elements asns)) as [H|H], (decide (asn ∈ asns)) as [H'|H'];
    try reflexivity; exfalso; rewrite elem_of_elements in H; contradiction.
Qed.

Lemma lookup_aggregate_one (d : gmap Z (list string)) (prefix : string)
      (o : origin) (a : Z) :
  (originates o a /\
   aggregate_one d (prefix, o) !! a = Some (default [] (d !! a) ++ [prefix])) \/
  (~ originates o a /\ aggregate_one d (prefix, o) !! a = d !! a).
Proof.
  destruct o as [b|asns].
  - unfold aggregate_one, originates. rewrite lookup_append_prefix.
    destruct (decide (b = a)) as [->|Hne]; [left | right]; split; congruence.
  - unfold aggregate_one, originates.
    rewrite lookup_fold_append_prefix by apply NoDup_elements.
    destruct (decide (a ∈ elements asns)) as [H|H]; rewrite elem_of_elements in H;
      [left | right]; auto.
Qed.

Lemma aggregated_step (seen : list (string * origin)) (d : gmap Z (list string))
      (prefix : string) (o : origin) :
  aggregated seen d -> prefix ∉ seen.*1 ->
  aggregated (seen ++ [(prefix, o)]) (aggregate_one d (prefix, o)).
Proof.
  intros Hinv Hnew a ps Hps.
  assert (Hweak : forall p o', (p, o') ∈ seen -> (p, o') ∈ seen ++ [(prefix, o)]).
  { intros p o' H. apply elem_of_app. now left. }
  destruct (lookup_aggregate_one d prefix o a) as [[Ho E] | [Ho E]];
    rewrite E in Hps.
  - injection Hps as <-.
    assert (Hold : NoDup (default [] (d !! a)) /\
                   forall p, p ∈ default [] (d !! a) ->
                             exists o', (p, o') ∈ seen /\ originates o' a).
    { destruct (d !! a) as [ps0|] eqn:E0; simpl.
      - destruct (Hinv a ps0 E0) as (_ & Hnd & Hfrom). auto.
      - split; [constructor |]. intros p Hp. now apply elem_of_nil in Hp. }
    destruct Hold as [Hnd Hfrom].
    split; [|split].
    + intros Hnil. apply app_eq_nil in Hnil as [_ Hnil]. discriminate.
    + apply NoDup_app. split; [assumption |]. split; [|apply NoDup_singleton].
      intros p Hp Hp'. apply list_elem_of_singleton in Hp' as ->.
      destruct (Hfrom _ Hp) as (o' & Hin & _).
      apply Hnew. apply list_elem_of_fmap. exists (prefix, o'). auto.
    + intros p Hp. apply elem_of_app in Hp as [Hp|Hp].
      * destruct (Hfrom _ Hp) as (o' & Hin & Ho'). exists o'. auto.
      * apply list_elem_of_singleton in Hp as ->. exists o. split; [|assumption].
        apply elem_of_app. right. apply list_elem_of_singleton. reflexivity.
  - destruct (Hinv a ps Hps) as (Hne & Hnd & Hfrom). split; [|split]; try assumption.
    intros p Hp. destruct (Hfrom _ Hp) as (o' & Hin & Ho'). exists o'. auto.
Qed.

Lemma aggregated_fold (items seen : list (string * origin)) (d : gmap Z (list string)) :
  aggregated seen d -> NoDup (seen ++ items).*1 ->
  aggregated (seen ++ items) (fold_left aggregate_one items d).
Proof.
  revert seen d. induction items as [|[prefix o] items IH]; intros seen d Hinv Hnd; simpl.
  - now rewrite app_nil_r.
  - replace (seen ++ (prefix, o) :: items) with ((seen ++ [(prefix, o)]) ++ items) in *
      by (now rewrite <- app_assoc).
    apply IH; [|assumption].
    apply aggregated_step; [assumption |].
    rewrite !fmap_app in Hnd. apply NoDup_app in Hnd as (Hnd & _ & _).
    apply NoDup_app in Hnd as (_ & Hdisj & _).
    intros Hin. apply (Hdisj _ Hin). simpl. left.
Qed.

Lemma aggregated_aggregate (prefixes : list (string * origin)) :
  NoDup prefixes.*1 -> aggregated prefixes (aggregate prefixes).
Proof.
  intros Hnd. apply (aggregated_fold prefixes [] ∅); [|assumption].
  intros a ps H. now rewrite lookup_empty in H.
Qed.

(** C7. For a prefix-to-origin dictionary (no prefix occurs as a key
    twice), every list in the map that [parse_rib_to_dict] returns is
    free of duplicates and non-empty, and each prefix in the list of an
    ASN is a key of the dictionary whose origin includes that ASN. *)
Theorem asn_lists_distinct_nonempty (prefixes : list (string * origin))
        (asn : Z) (ps : list string) :
  NoDup prefixes.*1 ->
  parse_rib_to_dict prefixes !! asn = Some ps ->
  NoDup ps /\ ps <> [] /\
  forall p, p ∈ ps -> exists o, (p, o) ∈ prefixes /\ originates o asn.
Proof.
  intros Hnd Hps. unfold parse_rib_to_dict in Hps. rewrite lookup_fmap in Hps.
  destruct (aggregate prefixes !! asn) as [ps0|] eqn:E0; [|discriminate].
  simpl in Hps. injection Hps as <-.
  destruct (aggregated_aggregate prefixes Hnd asn ps0 E0) as (Hne & Hnd0 & Hfrom).
  pose proof (sorted_perm ps0) as Hperm.
  split; [|split].
  - now rewrite Hperm.
  - intros Hnil. rewrite Hnil in Hperm. apply Permutation_nil_l in Hperm. congruence.
  - intros p Hp. apply Hfrom. now rewrite <- Hperm.
Qed.

End AggregateFacts.

(** ** The regex map *)

Section RegexFacts.

Variable IPv6Net : Type.
Variable IPv6Network : string -> bool -> option IPv6Net.
Variable grex : list string -> string.

Local Abbreviation ipnet := (ip_network IPv6Net IPv6Network).
Local Abbreviation extract := (extract_even_ipv4_networks IPv6Net IPv6Network).
Local Abbreviation even_prefixes := (build_asn_to_even_prefixes IPv6Net IPv6Network).
Local Abbreviation v6 := (is_v6 IPv6Net IPv6Network).
Local Abbreviation regex_map := (build_asn_to_regex IPv6Net IPv6Network grex).

Lemma touches_only_refl (asn : Z) (d : gmap Z (gset string)) : touches_only asn d d.
Proof. split; auto. Qed.

Lemma touches_only_trans (asn : Z) (d0 d1 d2 : gmap Z (gset string)) :
  touches_only asn d0 d1 -> touches_only asn d1 d2 -> touches_only asn d0 d2.
Proof.
  intros [N1 K1] [N2 K2]. split; [auto |].
  intros b Hb. now rewrite K2, K1.
Qed.

Lemma for_each_ok {A S : Type} (P : S -> Prop) (l : list A)
      (body : S -> A -> res S) (s : S) :
  P s ->
  (forall s x, x ∈ l -> P s -> exists s', body s x = Ok s' /\ P s') ->
  exists s', for_each l body s = Ok s' /\ P s'.
Proof.
  revert s. induction l as [|x l IH]; intros s Hs Hbody; simpl.
  - eauto.
  - destruct (Hbody s x) as (s1 & E & H1); [left | assumption |].
    rewrite E. change (Ok s1 ≫= ?f) with (f s1). cbv beta.
    apply IH; [assumption |]. intros s2 y Hy. apply Hbody. now right.
Qed.

Lemma add_chunk_ok (asn : Z) (d : gmap Z (gset string)) (chunk : string) :
  exists d', add_chunk asn d chunk = Ok d' /\ touches_only asn d d'.
Proof.
  unfold add_chunk. destruct (String.eqb chunk "").
  - eexists. split; [reflexivity | apply touches_only_refl].
  - eexists. split; [reflexivity |]. split.
    + intros Hne a toks. rewrite lookup_insert.
      destruct (decide (asn = a)) as [->|_]; [|apply Hne].
      intros [= <-] Hnil. apply elements_empty_inv in Hnil.
      assert (chunk ∈ ({[chunk]} ∪ default ∅ (d !! a) : gset string)) as Hin
          by set_solver.
      rewrite Hnil in Hin. set_solver.
    + intros b Hb. now rewrite lookup_insert_ne.
Qed.

Lemma extract_total (prefix : string) (net : network IPv6Net) :
  ipnet prefix false = Ok net ->
  exists chunks, extract prefix = Ok chunks /\
                 (v6 prefix = true -> chunks = []).
Proof.
  intros Hnet. unfold is_v6. rewrite Hnet. destruct net as [net4|net6].
  - apply ip_network_V4_inv in Hnet.
    destruct (Z.le_gt_cases (Ip.prefixlen net4) 24) as [Hp|Hp].
    + eexists. split; [apply (extract_coarse _ _ prefix net4); assumption |].
      discriminate.
    + eexists. split; [apply (extract_fine _ _ prefix net4); (assumption || lia) |].
      discriminate.
  - exists []. split; [|reflexivity].
    unfold extract_even_ipv4_networks. now rewrite Hnet.
Qed.

Lemma add_prefix_ok (asn : Z) (d : gmap Z (gset string)) (prefix : string)
      (net : network IPv6Net) :
  ipnet prefix false = Ok net ->
  exists d', add_prefix IPv6Net IPv6Network asn d prefix = Ok d' /\
             touches_only asn d d' /\ (v6 prefix = true -> d' = d).
Proof.
  intros Hnet. destruct (extract_total prefix net Hnet) as (chunks & E & Hv6).
  unfold add_prefix. rewrite E. change (Ok chunks ≫= ?f) with (f chunks). cbv beta.
  destruct (v6 prefix) eqn:Ev6.
  - rewrite (Hv6 eq_refl). simpl. exists d. split; [reflexivity |].
    split; [apply touches_only_refl | reflexivity].
  - destruct (for_each_ok (touches_only asn d) chunks (add_chunk asn) d)
      as (d' & E' & H').
    + apply touches_only_refl.
    + intros s x _ Hs. destruct (add_chunk_ok asn s x) as (s' & Es & Hs').
      exists s'. split; [assumption |]. eapply touches_only_trans; eassumption.
    + exists d'. split; [assumption |]. split; [assumption | discriminate].
Qed.

Lemma add_asn_ok (asn : Z) (ps : list string) (d : gmap Z (gset string)) :
  (forall p, p ∈ ps -> exists net, ipnet p false = Ok net) ->
  exists d', add_asn IPv6Net IPv6Network d (asn, ps) = Ok d' /\
             touches_only asn d d' /\ (forallb v6 ps = true -> d' = d).
Proof.
  intros Hparse. unfold add_asn. cbn [fst snd].
  destruct (for_each_ok
              (fun d' => touches_only asn d d' /\ (forallb v6 ps = true -> d' = d))
              ps (add_prefix IPv6Net IPv6Network asn) d) as (d' & E & H1 & H2).
  - split; [apply touches_only_refl | reflexivity].
  - intros s p Hp [Hs Hv6]. destruct (Hparse p Hp) as [net Hnet].
    destruct (add_prefix_ok asn s p net Hnet) as (s' & Es & Ht & Hid).
    exists s'. split; [assumption |]. split.
    + eapply touches_only_trans; eassumption.
    + intros Hall. rewrite Hid; [now apply Hv6 |].
      rewrite forallb_forall in Hall. apply Hall. now apply list_elem_of_In.
  - eauto.
Qed.

Lemma even_prefixes_ok (asn_dict : gmap Z (list string)) :
  (forall asn ps p, asn_dict !! asn = Some ps -> p ∈ ps ->
                    exists net, ipnet p false = Ok net) ->
  exists even, even_prefixes asn_dict = Ok even /\ even_inv IPv6Net IPv6Network asn_dict even.
Proof.
  intros Hparse. unfold build_asn_to_even_prefixes.
  apply for_each_ok.
  - split; intros a toks H; now rewrite lookup_empty in H.
  - intros d [asn ps] Hin [Hne Hfrom]. apply elem_of_map_to_list in Hin.
    destruct (add_asn_ok asn ps d) as (d' & E & [Hn Hk] & Hid).
    { intros p Hp. eapply Hparse; eassumption. }
    exists d'. split; [assumption |]. split; [auto |].
    intros a toks Ha. destruct (decide (a = asn)) as [->|Hna].
    + destruct (forallb v6 ps) eqn:Hall.
      * rewrite (Hid eq_refl) in Ha. eauto.
      * eauto.
    + rewrite Hk in Ha by assumption. eauto.
Qed.

Lemma regex_loop_ok (l : list (Z * gset string)) (m0 : gmap Z string) :
  NoDup l.*1 ->
  (forall a toks, (a, toks) ∈ l -> elements toks <> []) ->
  exists m, for_each l (add_regex grex) m0 = Ok m /\
    forall a, m !! a =
              match (list_to_map l : gmap Z (gset string)) !! a with
              | Some toks => Some (grex (elements toks))
              | None => m0 !! a
              end.
Proof.
  revert m0. induction l as [|[k toks] l IH]; intros m0 Hnd Hne.
  - exists m0. split; [reflexivity |]. intros a. simpl. now rewrite lookup_empty.
  - rewrite fmap_cons in Hnd. apply NoDup_cons in Hnd as [Hk Hnd]. cbn [fst] in Hk.
    assert (Hcall : RegExpBuilder_build grex (elements toks) = Ok (grex (elements toks))).
    { unfold RegExpBuilder_build.
      destruct (elements toks) eqn:E; [|reflexivity].
      exfalso. apply (Hne k toks); [left | assumption]. }
    destruct (IH (<[k := grex (elements toks)]> m0) Hnd) as (m & E & Hm).
    { intros a t Hin. apply (Hne a t). now right. }
    exists m. split.
    + assert (Hstep : add_regex grex m0 (k, toks) =
                      Ok (<[k := grex (elements toks)]> m0)).
      { unfold add_regex. cbn [fst snd]. now rewrite Hcall. }
      cbn [for_each]. rewrite Hstep. exact E.
    + intros a. rewrite Hm. cbn [list_to_map foldr uncurry].
      destruct (decide (k = a)) as [->|Hka].
      * rewrite (not_elem_of_list_to_map_1 _ _ Hk). now rewrite !lookup_insert_eq.
      * now rewrite !lookup_insert_ne by assumption.
Qed.

(** C4. When every prefix of the map is a network, [build_asn_to_regex]
    returns a map; every token set that it passes to [RegExpBuilder] is
    non-empty, the map has a pattern exactly for the ASNs that have a
    token set, and an ASN whose prefixes are all IPv6 has neither. *)
Theorem ipv6_only_asn_absent (asn_dict : gmap Z (list string)) :
  (forall asn ps p, asn_dict !! asn = Some ps -> p ∈ ps ->
                    exists net, ip_network IPv6Net IPv6Network p false = Ok net) ->
  exists even regexes,
    build_asn_to_even_prefixes IPv6Net IPv6Network asn_dict = Ok even /\
    build_asn_to_regex IPv6Net IPv6Network grex asn_dict = Ok regexes /\
    (forall asn toks, even !! asn = Some toks -> elements toks <> []) /\
    (forall asn, regexes !! asn = (fun toks => grex (elements toks)) <$> even !! asn) /\
    (forall asn ps, asn_dict !! asn = Some ps -> forallb (is_v6 IPv6Net IPv6Network) ps = true ->
                    even !! asn = None /\ regexes !! asn = None).
Proof.
  intros Hparse.
  destruct (even_prefixes_ok asn_dict Hparse) as (even & Eeven & Hne & Hfrom).
  destruct (regex_loop_ok (map_to_list even) ∅) as (regexes & Ereg & Hreg).
  { apply NoDup_fst_map_to_list. }
  { intros a toks Hin. apply elem_of_map_to_list in Hin. eapply Hne. eassumption. }
  rewrite list_to_map_to_list in Hreg.
  assert (Hlookup : forall asn,
             regexes !! asn = (fun toks => grex (elements toks)) <$> even !! asn).
  { intros asn. rewrite Hreg. destruct (even !! asn); [reflexivity |].
    now rewrite lookup_empty. }
  assert (Habsent : forall asn ps, asn_dict !! asn = Some ps ->
                                   forallb v6 ps = true -> even !! asn = None).
  { intros asn ps Hps Hall. destruct (even !! asn) as [toks|] eqn:E; [|reflexivity].
    destruct (Hfrom asn toks E) as (ps' & Hps' & Hsome). congruence. }
  exists even, regexes. split; [assumption |]. split.
  { unfold build_asn_to_regex. rewrite Eeven.
    change (Ok even ≫= ?f) with (f even). cbv beta. exact Ereg. }
  split; [exact Hne |]. split; [exact Hlookup |].
  intros asn ps Hps Hall. pose proof (Habsent asn ps Hps Hall) as E.
  split; [exact E |]. now rewrite Hlookup, E.
Qed.

End RegexFacts.

(** * Worked instances *)

Lemma coarse_tokens_cover_prefix_witness :
  extract_even_ipv4_networks unit colon_ipv6 "10.0.0.0/16" = Ok ["10.0."] /\
  forall addr, Ip.contains (Ip.mkNet 167772160 16) addr = true ->
               Str.startswith (Ip.string_from_ip_int addr) "10.0." = true.
Proof.
  destruct (coarse_tokens_cover_prefix unit colon_ipv6 "10.0.0.0/16"
              (Ip.mkNet 167772160 16)) as (toks & E & H).
  - vm_compute. reflexivity.
  - simpl. lia.
  - assert (Etoks : Ok toks = Ok ["10.0."]) by (rewrite <- E; vm_compute; reflexivity).
    injection Etoks as ->. split; [vm_compute; reflexivity |].
    intros addr Haddr. destruct (H addr Haddr) as (tok & [<- | []] & Hs). exact Hs.
Defined.

Lemma fine_token_set_size_witness :
  extract_even_ipv4_networks unit colon_ipv6 "192.168.1.0/30" =
    Ok ["192.168.1.0"; "192.168.1.1"; "192.168.1.2"; "192.168.1.3"] /\
  Z.of_nat (size (list_to_set ["192.168.1.0"; "192.168.1.1"; "192.168.1.2"; "192.168.1.3"]
                  : gset string)) = 4.
Proof.
  destruct (fine_token_set_size unit colon_ipv6 "192.168.1.0/30"
              (Ip.mkNet 3232235776 30)) as (toks & E & Hsize & _).
  - vm_compute. reflexivity.
  - simpl. lia.
  - assert (Etoks : Ok toks =
                    Ok ["192.168.1.0"; "192.168.1.1"; "192.168.1.2"; "192.168.1.3"])
      by (rewrite <- E; vm_compute; reflexivity).
    injection Etoks as ->. split; [vm_compute; reflexivity | exact Hsize].
Defined.

Lemma narrow_tokens_repeat_witness :
  extract_even_ipv4_networks unit colon_ipv6 "192.168.1.7/32" =
    Ok ["192.168.1.7"; "192.168.1.7"; "192.168.1.7"] /\
  extract_even_ipv4_networks unit colon_ipv6 "192.168.1.6/31" =
    Ok ["192.168.1.6"; "192.168.1.6"; "192.168.1.7"; "192.168.1.7"].
Proof.
  split.
  - destruct (narrow_tokens_repeat unit colon_ipv6 "192.168.1.7/32"
                (Ip.mkNet 3232235783 32)) as (toks & E & H32 & _).
    + vm_compute. reflexivity.
    + simpl. lia.
    + rewrite E, (H32 eq_refl). vm_compute. reflexivity.
  - destruct (narrow_tokens_repeat unit colon_ipv6 "192.168.1.6/31"
                (Ip.mkNet 3232235782 31)) as (toks & E & _ & H31 & _).
    + vm_compute. reflexivity.
    + simpl. lia.
    + rewrite E, (H31 eq_refl). vm_compute. reflexivity.
Defined.

Lemma host_bits_are_masked_witness :
  Ip.IPv4Network_new "10.0.0.5/8" true = Raise ValueError /\
  extract_even_ipv4_networks unit colon_ipv6 "10.0.0.5/8" = Ok ["10."] /\
  extract_even_ipv4_networks unit colon_ipv6 "10.0.0.0/8" = Ok ["10."].
Proof.
  assert (Hstrict : Ip.IPv4Network_new "10.0.0.5/8" true = Raise ValueError)
    by (vm_compute; reflexivity).
  split; [exact Hstrict |].
  destruct (host_bits_are_masked unit colon_ipv6 "10.0.0.5/8" Hstrict)
    as (net & toks & Hnet & _ & E1 & E2).
  assert (Enet : Ok (V4 unit net) = Ok (V4 unit (Ip.mkNet 167772160 8)))
    by (rewrite <- Hnet; vm_compute; reflexivity).
  injection Enet as ->.
  assert (Etoks : Ok toks = Ok ["10."]) by (rewrite <- E1; vm_compute; reflexivity).
  injection Etoks as ->. split; [exact E1 | exact E2].
Defined.

Lemma ipv6_only_asn_absent_witness :
  exists regexes,
    build_asn_to_regex unit colon_ipv6 alternation
      (<[5 := ["10.2.0.0/24"]]> {[9 := ["::/0"]]}) = Ok regexes /\
    regexes !! 9 = None.
Proof.
  destruct (ipv6_only_asn_absent unit colon_ipv6 alternation
              (<[5 := ["10.2.0.0/24"]]> {[9 := ["::/0"]]}))
    as (even & regexes & _ & E & _ & _ & Habs).
  - intros asn ps p H Hp. apply lookup_insert_Some in H as [[<- <-] | [_ H]].
    + apply list_elem_of_singleton in Hp as ->. eexists. vm_compute. reflexivity.
    + apply lookup_singleton_Some in H as [<- <-].
      apply list_elem_of_singleton in Hp as ->. eexists. vm_compute. reflexivity.
  - exists regexes. split; [exact E |].
    apply (Habs 9 ["::/0"]); vm_compute; reflexivity.
Defined.

Lemma asn_lists_distinct_nonempty_witness :
  NoDup ["10.2.0.0/24"; "10.10.0.0/24"] /\ ["10.2.0.0/24"; "10.10.0.0/24"] <> [].
Proof.
  destruct (asn_lists_distinct_nonempty
              [("10.10.0.0/24", Single 5); ("10.2.0.0/24", AsSet {[5; 7]});
               ("::/0", Single 9)]
              5 ["10.2.0.0/24"; "10.10.0.0/24"]) as (Hnd & Hne & _).
  - apply (bool_decide_unpack _). vm_compute. reflexivity.
  - vm_compute. reflexivity.
  - split; assumption.
Defined.

Lemma build_filename_last_even_hour_witness :
  build_filename 1 (Datetime.mk 739925 13 45 12 0) =
  Some (Ok "https://routeviews.org/bgpdata/2026.11/RIBS/rib.20261105.1200.bz2").
Proof.
  assert (Hv : valid_now (Datetime.mk 739925 13 45 12 0)).
  { unfold valid_now, Datetime.MAXORDINAL. simpl. lia. }
  assert (Hf : (1 <= 1)%nat) by lia.
  exact (proj1 (build_filename_last_even_hour (Datetime.mk 739925 13 45 12 0) 1 Hv Hf)).
Defined.

(** * Further properties of the decomposer *)

Section DecomposerMore.

Variable IPv6Net : Type.
Variable IPv6Network : string -> bool -> option IPv6Net.

Local Abbreviation ipnet := (ip_network IPv6Net IPv6Network).
Local Abbreviation extract := (extract_even_ipv4_networks IPv6Net IPv6Network).

Lemma IPv4Network_new_lenient_error (s : string) (e : exn) :
  Ip.IPv4Network_new s false = Raise e ->
  e = AddressValueError \/ e = NetmaskValueError.
Proof.
  unfold Ip.IPv4Network_new.
  destruct (Ip.split_optional_netmask s) as [[|addr rest]|e0] eqn:Hs.
  - intros [= <-]. now left.
  - unfold mbind, res_bind, bind.
    destruct (Ip.ip_int_from_string addr) as [packed|e1] eqn:Ha.
    + destruct (match rest with
                | [] => Ok Ip.max_prefixlen
                | mask :: _ => Ip.make_netmask mask
                end) as [p|e2] eqn:Hm.
      * destruct (negb _); discriminate.
      * intros [= <-]. right. destruct rest as [|mask rest]; [discriminate |].
        unfold Ip.make_netmask in Hm.
        destruct (Ip.prefix_from_prefix_string mask); [discriminate |].
        unfold Ip.prefix_from_ip_string in Hm.
        destruct (Ip.ip_int_from_string mask); [|congruence].
        destruct (Ip.prefix_from_ip_int _); [discriminate |].
        destruct (Ip.prefix_from_ip_int _); congruence.
    + intros [= <-]. left. unfold Ip.ip_int_from_string in Ha.
      destruct (String.eqb addr ""); [congruence |].
      destruct (negb _); [congruence |].
      destruct (Ip.parse_octets _); congruence.
  - unfold mbind, res_bind, bind. intros [= <-]. left.
    unfold Ip.split_optional_netmask in Hs. destruct (2 <? _); congruence.
Qed.

Lemma extract_of_network (s : string) (net : network IPv6Net) :
  ipnet s false = Ok net ->
  exists toks, extract s = Ok toks /\
    match net with
    | V4 _ net4 =>
        if Ip.prefixlen net4 <=? 24 then
          toks = map (token (bucket (Ip.prefixlen net4)))
                     (Ip.range (Ip.network_address net4)
                               (Ip.network_address net4 + 2 ^ (32 - Ip.prefixlen net4))
                               (2 ^ (32 - bucket (Ip.prefixlen net4))))
        else toks = map Ip.string_from_ip_int (fine_addresses net4)
    | V6 _ _ => toks = []
    end.
Proof.
  intros Hnet. destruct net as [net4|net6].
  - apply ip_network_V4_inv in Hnet.
    destruct (Z.leb_spec (Ip.prefixlen net4) 24) as [Hp|Hp].
    + eexists. split; [apply (extract_coarse _ _ s net4); assumption | reflexivity].
    + eexists. split; [apply (extract_fine _ _ s net4); (assumption || lia) | reflexivity].
  - exists []. split; [|reflexivity].
    unfold extract_even_ipv4_networks. now rewrite Hnet.
Qed.

Lemma extract_Ok_network (s : string) (toks : list string) :
  extract s = Ok toks -> exists net, ipnet s false = Ok net.
Proof.
  unfold extract_even_ipv4_networks.
  destruct (ipnet s false) as [net|e]; [eauto | discriminate].
Qed.

Lemma ip_network_lenient_error (s : string) (e : exn) :
  ipnet s false = Raise e ->
  e = ValueError /\
  IPv6Network s false = None /\
  exists e', Ip.IPv4Network_new s false = Raise e'.
Proof.
  unfold ip_network. intros Hnet.
  destruct (Ip.IPv4Network_new s false) as [n|e'] eqn:H4; [discriminate |].
  destruct (IPv4Network_new_lenient_error s e' H4) as [-> | ->];
    destruct (IPv6Network s false); try discriminate;
    injection Hnet as <-; eauto.
Qed.

Lemma extract_error (s : string) (e : exn) :
  extract s = Raise e -> ipnet s false = Raise e.
Proof.
  intros Hraise. destruct (ipnet s false) as [net|e0] eqn:Hnet.
  - destruct (extract_of_network s net Hnet) as (toks & E & _). congruence.
  - unfold extract_even_ipv4_networks in Hraise. rewrite Hnet in Hraise.
    now injection Hraise as <-.
Qed.

(** X5. The decomposer raises nothing but [ValueError], and only for a
    string that neither the IPv4 nor the IPv6 constructor accepts, both
    called leniently; host bits never make it raise. *)
Theorem extract_raises_only_ValueError (s : string) (e : exn) :
  extract_even_ipv4_networks IPv6Net IPv6Network s = Raise e ->
  e = ValueError /\
  IPv6Network s false = None /\
  exists e', Ip.IPv4Network_new s false = Raise e'.
Proof.
  intros Hraise. apply extract_error in Hraise.
  destruct (ip_network_lenient_error s e Hraise) as (He & H6 & e' & H4).
  split; [exact He |]. split; [exact H6 |]. exists e'. exact H4.
Qed.

Lemma token_nonempty (k sub : Z) : token k sub <> "".
Proof.
  unfold token. intros H. apply (f_equal (occurs ".")) in H.
  change (occurs "." "") with false in H.
  destruct (k =? 8); [|destruct (k =? 16)];
    rewrite !occurs_append in H; change (occurs "." ".") with true in H;
    rewrite ?orb_true_r in H; discriminate.
Qed.

Lemma network_address_contained (net : Ip.IPv4Network) :
  wf net -> Ip.contains net (Ip.network_address net) = true.
Proof.
  intros Hwf. pose proof Hwf as (Hp & Ha & Hal).
  unfold Ip.contains. rewrite broadcast_value by assumption.
  assert (0 < 2 ^ (32 - Ip.prefixlen net)) by (apply Z.pow_pos_nonneg; lia).
  apply andb_true_iff. split; apply Z.leb_le; lia.
Qed.

Lemma bucket_bounds (p : Z) : p <= 24 -> p <= bucket p /\ bucket p <= 24.
Proof.
  intros Hp. unfold bucket.
  destruct (Z.leb_spec p 8); [lia |]. destruct (Z.leb_spec p 16); lia.
Qed.

Lemma bucket_cases (p : Z) : bucket p = 8 \/ bucket p = 16 \/ bucket p = 24.
Proof. unfold bucket. destruct (p <=? 8); [auto |]. destruct (p <=? 16); auto. Qed.

Lemma extract_token_not_empty (s : string) (toks : list string) (tok : string) :
  extract s = Ok toks -> In tok toks -> tok <> "".
Proof.
  intros E Hin. destruct (extract_Ok_network s toks E) as [net Hnet].
  destruct (extract_of_network s net Hnet) as (toks' & E' & Hshape).
  assert (toks' = toks) by congruence. subst toks'.
  destruct net as [net4|net6].
  - destruct (Ip.prefixlen net4 <=? 24); subst toks;
      apply in_map_iff in Hin as (x & <- & _);
      [apply token_nonempty | apply string_from_ip_int_nonempty].
  - subst toks. destruct Hin.
Qed.

Lemma extract_V4_not_nil (s : string) (net : Ip.IPv4Network) (toks : list string) :
  ipnet s false = Ok (V4 IPv6Net net) -> extract s = Ok toks -> toks <> [].
Proof.
  intros Hnet E.
  destruct (extract_of_network s _ Hnet) as (toks' & E' & Hshape).
  assert (toks' = toks) by congruence. subst toks'.
  pose proof (IPv4Network_new_wf _ _ _ (ip_network_V4_inv _ _ _ _ _ Hnet)) as Hwf.
  destruct (Z.leb_spec (Ip.prefixlen net) 24) as [Hp|Hp]; subst toks;
    intros Hnil; apply map_eq_nil in Hnil; [|discriminate].
  destruct (bucket_bounds _ Hp) as [Hlo Hhi].
  pose proof (block_in_range net (bucket (Ip.prefixlen net))
                (Ip.network_address net) Hwf Hlo ltac:(lia)
                (network_address_contained net Hwf)) as Hin.
  rewrite Hnil in Hin. destruct Hin.
Qed.

(** X1. No token that the decomposer yields is the empty string, and for
    an IPv4 network it yields at least one token: the guard
    [if not even_chunk: continue] of the caller never fires. *)
Theorem extract_tokens_nonempty (s : string) (toks : list string) :
  extract_even_ipv4_networks IPv6Net IPv6Network s = Ok toks ->
  (forall tok, In tok toks -> tok <> "") /\
  (forall net, ip_network IPv6Net IPv6Network s false = Ok (V4 IPv6Net net) -> toks <> []).
Proof.
  intros E. split.
  - intros tok Hin. eapply extract_token_not_empty; eassumption.
  - intros net Hnet. eapply extract_V4_not_nil; eassumption.
Qed.

(** X4. For a prefix of length 25 to 32 the yielded strings are exactly
    the dotted quads of the addresses of the network, network and
    broadcast address included. *)
Theorem fine_tokens_are_the_addresses (s : string) (net : Ip.IPv4Network)
        (toks : list string) (tok : string) :
  ip_network IPv6Net IPv6Network s false = Ok (V4 IPv6Net net) ->
  25 <= Ip.prefixlen net ->
  extract_even_ipv4_networks IPv6Net IPv6Network s = Ok toks ->
  In tok toks <->
  exists addr, Ip.contains net addr = true /\ tok = Ip.string_from_ip_int addr.
Proof.
  intros Hnet Hp E. apply ip_network_V4_inv in Hnet.
  pose proof (IPv4Network_new_wf _ _ _ Hnet) as Hwf.
  pose proof (extract_fine IPv6Net IPv6Network s net Hnet Hp) as E'.
  assert (Et : toks = map Ip.string_from_ip_int (fine_addresses net)) by congruence.
  rewrite Et, in_map_iff. unfold Ip.contains.
  split.
  - intros (a & <- & Ha). exists a. split; [|reflexivity].
    apply in_fine_addresses in Ha; [|assumption..].
    apply andb_true_iff. split; apply Z.leb_le; lia.
  - intros (a & Ha & ->). exists a. split; [reflexivity |].
    apply andb_true_iff in Ha as [H1 H2]. apply Z.leb_le in H1, H2.
    apply in_fine_addresses; [assumption.. | lia].
Qed.

Lemma of_int_byte_inj (a b : Z) :
  0 <= a < 256 -> 0 <= b < 256 -> Str.of_int a = Str.of_int b -> a = b.
Proof.
  intros Ha Hb E. apply (f_equal Ip.parse_octet) in E.
  rewrite !parse_octet_of_int in E by assumption. congruence.
Qed.

Lemma startswith_dotted (a b r r' : string) :
  occurs "." a = false -> occurs "." b = false ->
  Str.startswith (a +:+ String "." r) (b +:+ String "." r') = true ->
  a = b /\ Str.startswith r r' = true.
Proof.
  revert b. induction a as [|x a IH]; intros [|y b] Ha Hb H.
  - rewrite !append_nil_l in H. cbn [Str.startswith] in H.
    apply andb_true_iff in H as [_ H]. auto.
  - rewrite append_nil_l, append_cons in H. cbn [Str.startswith] in H.
    apply andb_true_iff in H as [Hxy _]. apply Ascii.eqb_eq in Hxy. subst y.
    simpl in Hb. discriminate.
  - rewrite append_nil_l, append_cons in H. cbn [Str.startswith] in H.
    apply andb_true_iff in H as [Hxy _]. apply Ascii.eqb_eq in Hxy. subst x.
    simpl in Ha. discriminate.
  - rewrite !append_cons in H. cbn [Str.startswith] in H.
    apply andb_true_iff in H as [Hxy H]. apply Ascii.eqb_eq in Hxy. subst y.
    simpl in Ha, Hb. apply orb_false_iff in Ha as [_ Ha], Hb as [_ Hb].
    destruct (IH b Ha Hb H) as [-> Hr]. auto.
Qed.

Lemma byte_no_dot (x j : Z) : occurs "." (Str.of_int (Z.land (Z.shiftr x j) 255)) = false.
Proof.
  apply of_int_no_dot. change 255 with (Z.ones 8). rewrite Z.land_ones by lia.
  apply Z.mod_pos_bound. lia.
Qed.

Lemma byte_eq (x y j : Z) :
  Str.of_int (Z.land (Z.shiftr x j) 255) = Str.of_int (Z.land (Z.shiftr y j) 255) ->
  0 <= j ->
  (x / 2 ^ j) mod 256 = (y / 2 ^ j) mod 256.
Proof.
  intros E Hj. apply of_int_byte_inj in E.
  - change 255 with (Z.ones 8) in E. rewrite !Z.land_ones in E by lia.
    now rewrite !Z.shiftr_div_pow2 in E by lia.
  - change 255 with (Z.ones 8). rewrite Z.land_ones by lia. apply Z.mod_pos_bound. lia.
  - change 255 with (Z.ones 8). rewrite Z.land_ones by lia. apply Z.mod_pos_bound. lia.
Qed.

(** An address that starts with the token of an aligned block lies in
    that block. *)
Lemma startswith_token_block (k x sub : Z) :
  k = 8 \/ k = 16 \/ k = 24 ->
  0 <= x < 2 ^ 32 -> 0 <= sub < 2 ^ 32 -> sub mod 2 ^ (32 - k) = 0 ->
  Str.startswith (Ip.string_from_ip_int x) (token k sub) = true ->
  2 ^ (32 - k) * (x / 2 ^ (32 - k)) = sub.
Proof.
  intros Hk Hx Hsub Hal H. rewrite string_from_ip_int_eq in H.
  unfold token, Ip.to_bytes4 in H. cbn [nth] in H.
  pose proof (byte_no_dot x 24) as Nx24. pose proof (byte_no_dot x 16) as Nx16.
  pose proof (byte_no_dot x 8) as Nx8. pose proof (byte_no_dot sub 24) as Ns24.
  pose proof (byte_no_dot sub 16) as Ns16. pose proof (byte_no_dot sub 8) as Ns8.
  destruct Hk as [-> | [-> | ->]]; cbn [Z.eqb Pos.eqb] in H.
  - apply startswith_dotted in H as [E24 _]; [|assumption..].
    apply byte_eq in E24; [|lia].
    change (2 ^ (32 - 8)) with 16777216 in *. change (2 ^ 24) with 16777216 in *.
    change (2 ^ 32) with 4294967296 in *.
    Z.to_euclidean_division_equations. lia.
  - apply startswith_dotted in H as [E24 H]; [|assumption..].
    apply startswith_dotted in H as [E16 _]; [|assumption..].
    apply byte_eq in E24; [|lia]. apply byte_eq in E16; [|lia].
    change (2 ^ (32 - 16)) with 65536 in *. change (2 ^ 24) with 16777216 in *.
    change (2 ^ 16) with 65536 in *. change (2 ^ 32) with 4294967296 in *.
    Z.to_euclidean_division_equations. lia.
  - apply startswith_dotted in H as [E24 H]; [|assumption..].
    apply startswith_dotted in H as [E16 H]; [|assumption..].
    apply startswith_dotted in H as [E8 _]; [|assumption..].
    apply byte_eq in E24; [|lia]. apply byte_eq in E16; [|lia].
    apply byte_eq in E8; [|lia].
    change (2 ^ (32 - 24)) with 256 in *. change (2 ^ 24) with 16777216 in *.
    change (2 ^ 16) with 65536 in *. change (2 ^ 8) with 256 in *.
    change (2 ^ 32) with 4294967296 in *.
    Z.to_euclidean_division_equations. lia.
Qed.

(** The subnets that the coarse buckets enumerate are aligned blocks
    inside the network. *)
Lemma coarse_subnet_facts (net : Ip.IPv4Network) (sub : Z) :
  wf net -> Ip.prefixlen net <= 24 ->
  In sub (Ip.range (Ip.network_address net)
                   (Ip.network_address net + 2 ^ (32 - Ip.prefixlen net))
                   (2 ^ (32 - bucket (Ip.prefixlen net)))) ->
  0 <= sub < 2 ^ 32 /\
  sub mod 2 ^ (32 - bucket (Ip.prefixlen net)) = 0 /\
  Ip.network_address net <= sub /\
  sub + 2 ^ (32 - bucket (Ip.prefixlen net)) <=
  Ip.network_address net + 2 ^ (32 - Ip.prefixlen net) /\
  Ip.network_address net + 2 ^ (32 - Ip.prefixlen net) <= 2 ^ 32.
Proof.
  intros Hwf Hp Hin. pose proof Hwf as (Hr & Ha & Hal).
  destruct (bucket_bounds _ Hp) as [Hlo Hhi].
  set (k := bucket (Ip.prefixlen net)) in *.
  pose proof (wf_aligned net k Hwf Hlo ltac:(lia)) as Hak.
  assert (Hm : 0 < 2 ^ (32 - k)) by (apply Z.pow_pos_nonneg; lia).
  assert (Hn : 0 < 2 ^ (k - Ip.prefixlen net)) by (apply Z.pow_pos_nonneg; lia).
  assert (Hq : 0 < 2 ^ Ip.prefixlen net) by (apply Z.pow_pos_nonneg; lia).
  assert (Hsize : 2 ^ (32 - Ip.prefixlen net) = 2 ^ (k - Ip.prefixlen net) * 2 ^ (32 - k)).
  { rewrite <- Z.pow_add_r by lia. f_equal. lia. }
  assert (Hfull : 2 ^ 32 = 2 ^ Ip.prefixlen net * 2 ^ (32 - Ip.prefixlen net)).
  { rewrite <- Z.pow_add_r by lia. f_equal. lia. }
  apply in_range in Hin as (i & Hi & -> & Hlt); [|assumption].
  set (m := 2 ^ (32 - k)) in *. set (n := 2 ^ (k - Ip.prefixlen net)) in *.
  set (size := 2 ^ (32 - Ip.prefixlen net)) in *.
  apply Z.mod_divide in Hak; [|lia]. destruct Hak as [a' Ea].
  apply Z.mod_divide in Hal; [|lia]. destruct Hal as [a'' Ea''].
  assert (Hi' : i < n) by nia.
  assert (Htop : Ip.network_address net + size <= 2 ^ 32).
  { assert (a'' < 2 ^ Ip.prefixlen net) by nia. nia. }
  split; [nia |]. split.
  - rewrite Ea. replace (a' * m + i * m) with ((a' + i) * m) by lia.
    apply Z.mod_mul. lia.
  - split; [nia |]. split; [nia | exact Htop].
Qed.

Lemma NoDup_range (start stop step : Z) : 0 < step -> NoDup (Ip.range start stop step).
Proof.
  intros Hstep. unfold Ip.range. apply NoDup_fmap_2_strong; [|apply NoDup_seq].
  intros i j _ _ H. nia.
Qed.

Lemma length_range_blocks (start n m : Z) :
  0 <= n -> 0 < m -> Z.of_nat (length (Ip.range start (start + n * m) m)) = n.
Proof.
  intros Hn Hm. unfold Ip.range. rewrite length_map, length_seq.
  replace (start + n * m - start + m - 1) with (m - 1 + n * m) by lia.
  rewrite Z.div_add by lia. rewrite (Z.div_small (m - 1) m) by lia. lia.
Qed.

(** X3. For a prefix of length at most 24, an IPv4 address that starts,
    as a dotted-quad string, with one of the yielded tokens is an address
    of the prefix: the tokens match nothing outside it. *)
Theorem coarse_tokens_match_only_prefix (s : string) (net : Ip.IPv4Network)
        (toks : list string) (tok : string) (addr : Z) :
  ip_network IPv6Net IPv6Network s false = Ok (V4 IPv6Net net) ->
  Ip.prefixlen net <= 24 ->
  extract_even_ipv4_networks IPv6Net IPv6Network s = Ok toks ->
  In tok toks ->
  0 <= addr < 2 ^ 32 ->
  Str.startswith (Ip.string_from_ip_int addr) tok = true ->
  Ip.contains net addr = true.
Proof.
  intros Hnet Hp E Hin Haddr Hstarts. apply ip_network_V4_inv in Hnet.
  pose proof (IPv4Network_new_wf _ _ _ Hnet) as Hwf.
  pose proof (extract_coarse IPv6Net IPv6Network s net Hnet Hp) as E'.
  assert (Et : toks = map (token (bucket (Ip.prefixlen net)))
                          (Ip.range (Ip.network_address net)
                                    (Ip.network_address net + 2 ^ (32 - Ip.prefixlen net))
                                    (2 ^ (32 - bucket (Ip.prefixlen net)))))
    by congruence.
  rewrite Et in Hin. apply in_map_iff in Hin as (sub & <- & Hsub).
  destruct (coarse_subnet_facts net sub Hwf Hp Hsub) as (Hr & Hal & Hlo & Hhi & _).
  pose proof (startswith_token_block _ addr sub (bucket_cases _) Haddr Hr Hal Hstarts)
    as Hblock.
  destruct (bucket_bounds _ Hp) as [Hb1 Hb2].
  assert (Hm : 0 < 2 ^ (32 - bucket (Ip.prefixlen net)))
    by (apply Z.pow_pos_nonneg; lia).
  set (m := 2 ^ (32 - bucket (Ip.prefixlen net))) in *.
  pose proof (Z.div_mod addr m ltac:(lia)) as Hdm.
  pose proof (Z.mod_pos_bound addr m Hm) as Hmod.
  unfold Ip.contains. rewrite broadcast_value by assumption.
  apply andb_true_iff. split; apply Z.leb_le; lia.
Qed.

(** X2. For a prefix of length at most 24 the yielded tokens are pairwise
    distinct and there are [2^(k - prefixlen)] of them, [k] being the
    granularity 8, 16 or 24 that the length falls into. *)
Theorem coarse_tokens_distinct (s : string) (net : Ip.IPv4Network) (toks : list string) :
  ip_network IPv6Net IPv6Network s false = Ok (V4 IPv6Net net) ->
  Ip.prefixlen net <= 24 ->
  extract_even_ipv4_networks IPv6Net IPv6Network s = Ok toks ->
  NoDup toks /\
  Z.of_nat (length toks) = 2 ^ (bucket (Ip.prefixlen net) - Ip.prefixlen net).
Proof.
  intros Hnet Hp E. apply ip_network_V4_inv in Hnet.
  pose proof (IPv4Network_new_wf _ _ _ Hnet) as Hwf.
  pose proof (extract_coarse IPv6Net IPv6Network s net Hnet Hp) as E'.
  assert (Et : toks = map (token (bucket (Ip.prefixlen net)))
                          (Ip.range (Ip.network_address net)
                                    (Ip.network_address net + 2 ^ (32 - Ip.prefixlen net))
                                    (2 ^ (32 - bucket (Ip.prefixlen net)))))
    by congruence.
  pose proof Hwf as (Hr & Ha & Hal).
  destruct (bucket_bounds _ Hp) as [Hb1 Hb2].
  assert (Hm : 0 < 2 ^ (32 - bucket (Ip.prefixlen net)))
    by (apply Z.pow_pos_nonneg; lia).
  rewrite Et. split.
  - apply NoDup_fmap_2_strong; [|now apply NoDup_range].
    intros s1 s2 H1 H2 Heq. apply list_elem_of_In in H1, H2.
    destruct (coarse_subnet_facts net s1 Hwf Hp H1) as (Hr1 & Hal1 & _).
    destruct (coarse_subnet_facts net s2 Hwf Hp H2) as (Hr2 & Hal2 & _).
    pose proof (startswith_token _ s1 (bucket_cases (Ip.prefixlen net))) as Hs.
    assert (Hself : 2 ^ (32 - bucket (Ip.prefixlen net)) *
                    (s1 / 2 ^ (32 - bucket (Ip.prefixlen net))) = s1).
    { apply Z.mod_divide in Hal1; [|lia]. destruct Hal1 as [q ->].
      rewrite Z.div_mul by lia. lia. }
    rewrite Hself, Heq in Hs.
    pose proof (startswith_token_block _ s1 s2 (bucket_cases _) Hr1 Hr2 Hal2 Hs). lia.
  - rewrite length_map.
    replace (2 ^ (32 - Ip.prefixlen net))
      with (2 ^ (bucket (Ip.prefixlen net) - Ip.prefixlen net) *
            2 ^ (32 - bucket (Ip.prefixlen net)))
      by (rewrite <- Z.pow_add_r by lia; f_equal; lia).
    apply length_range_blocks; [|assumption]. apply Z.pow_nonneg. lia.
Qed.

End DecomposerMore.

(** * Further properties of the sort key *)

Section SortMore.

Lemma string_from_ip_int_no_slash (ip : Z) : occurs "/" (Ip.string_from_ip_int ip) = false.
Proof.
  rewrite string_from_ip_int_eq, !occurs_append. change (occurs "/" ".") with false.
  rewrite !of_int_no_slash; [reflexivity | | | |];
    (eapply to_bytes4_range with (ip := ip); unfold Ip.to_bytes4; simpl; tauto).
Qed.

Lemma partition0_string_of_network (net : Ip.IPv4Network) :
  Str.partition0 "/" (Ip.string_of_network net) =
  Ip.string_from_ip_int (Ip.network_address net).
Proof.
  unfold Ip.string_of_network.
  change ("/" +:+ Str.of_int (Ip.prefixlen net))
    with (String "/"%char (Str.of_int (Ip.prefixlen net))).
  apply partition0_append, string_from_ip_int_no_slash.
Qed.

Lemma byte_text (b : Z) :
  0 <= b < 256 -> Str.isdigit (Str.of_int b) = true /\ Str.int (Str.of_int b) = b.
Proof.
  intros Hb. pose proof (parse_octet_of_int b Hb) as H. unfold Ip.parse_octet in H.
  destruct (Str.isdigit (Str.of_int b)); [|discriminate]. cbn [negb] in H.
  destruct (3 <? _); [discriminate |].
  destruct (_ && _); [discriminate |].
  destruct (255 <? _); [discriminate |]. split; congruence.
Qed.

Lemma bytes_text (bs : list Z) :
  (forall b, In b bs -> 0 <= b < 256) ->
  forallb Str.isdigit (map Str.of_int bs) = true /\
  map Str.int (map Str.of_int bs) = bs.
Proof.
  induction bs as [|b bs IH]; intros H; [split; reflexivity |].
  destruct (byte_text b) as [Hd Hi]; [apply H; now left |].
  destruct IH as [IHd IHi]; [intros; apply H; now right |].
  cbn [map forallb]. rewrite Hd, Hi, IHd, IHi. split; reflexivity.
Qed.

Lemma Version_new_dotted_quad (ip : Z) :
  Version.new (Ip.string_from_ip_int ip) = Ok (Version.mk (Ip.to_bytes4 ip)).
Proof.
  unfold Version.new. rewrite split_string_from_ip_int.
  destruct (bytes_text (Ip.to_bytes4 ip) (to_bytes4_range ip)) as [Hd Hi].
  now rewrite Hd, Hi.
Qed.

Lemma ip_sort_key_network (net : Ip.IPv4Network) :
  ip_sort_key (Ip.string_of_network net) =
  Key0 (Version.mk (Ip.to_bytes4 (Ip.network_address net))).
Proof.
  unfold ip_sort_key. now rewrite partition0_string_of_network, Version_new_dotted_quad.
Qed.

Lemma tuple_lt_bytes (a0 a1 a2 a3 b0 b1 b2 b3 : Z) :
  0 <= a0 < 256 -> 0 <= a1 < 256 -> 0 <= a2 < 256 -> 0 <= a3 < 256 ->
  0 <= b0 < 256 -> 0 <= b1 < 256 -> 0 <= b2 < 256 -> 0 <= b3 < 256 ->
  Version.tuple_lt [a0; a1; a2; a3] [b0; b1; b2; b3] =
  (Ip.from_bytes [a0; a1; a2; a3] <? Ip.from_bytes [b0; b1; b2; b3]).
Proof.
  intros. unfold Ip.from_bytes. cbn [fold_left Version.tuple_lt].
  destruct (Z.eqb_spec a0 b0); [destruct (Z.eqb_spec a1 b1);
    [destruct (Z.eqb_spec a2 b2); [destruct (Z.eqb_spec a3 b3) |] |] |];
    match goal with
    | |- false = _ => symmetry; apply Z.ltb_ge; lia
    | |- (?x <? ?y) = _ =>
        destruct (Z.ltb_spec x y); symmetry;
        [apply Z.ltb_lt; lia | apply Z.ltb_ge; lia]
    end.
Qed.

Lemma land_255_range (v : Z) : 0 <= Z.land v 255 < 256.
Proof.
  change 255 with (Z.ones 8). rewrite Z.land_ones by lia. apply Z.mod_pos_bound. lia.
Qed.

Lemma Version_lt_dotted_quads (x y : Z) :
  0 <= x < 2 ^ 32 -> 0 <= y < 2 ^ 32 ->
  Version.lt (Version.mk (Ip.to_bytes4 x)) (Version.mk (Ip.to_bytes4 y)) = (x <? y).
Proof.
  intros Hx Hy. unfold Version.lt, Version.cmpkey. cbn [Version.release].
  change (Version.tuple_lt (strip (Ip.to_bytes4 x)) (strip (Ip.to_bytes4 y)) = (x <? y)).
  assert (Hnn : forall z, Forall (Z.le 0) (Ip.to_bytes4 z)).
  { intros z. apply Forall_forall. intros b Hb.
    apply list_elem_of_In, to_bytes4_range in Hb. lia. }
  rewrite tuple_lt_strip by (reflexivity || apply Hnn).
  rewrite <- (from_bytes_to_bytes4 x Hx) at 2.
  rewrite <- (from_bytes_to_bytes4 y Hy) at 2.
  unfold Ip.to_bytes4. apply tuple_lt_bytes; apply land_255_range.
Qed.

(** X6. Between the texts of two IPv4 networks, [ip_sort_key] orders by
    the network address as a number; the prefix length takes no part. *)
Theorem ipv4_keys_order_by_address (n1 n2 : Ip.IPv4Network) :
  wf n1 -> wf n2 ->
  key_lt (ip_sort_key (Ip.string_of_network n1)) (ip_sort_key (Ip.string_of_network n2)) =
  (Ip.network_address n1 <? Ip.network_address n2).
Proof.
  intros (_ & H1 & _) (_ & H2 & _). rewrite !ip_sort_key_network.
  cbn [key_lt]. now apply Version_lt_dotted_quads.
Qed.

Lemma occurs_split (c sep : ascii) (s : string) :
  occurs c s = true -> Ascii.eqb sep c = false ->
  exists part, In part (Str.split sep s) /\ occurs c part = true.
Proof.
  intros Hs Hsep. induction s as [|a s IH]; [discriminate |].
  cbn [occurs] in Hs. cbn [Str.split].
  destruct (Ascii.eqb a sep) eqn:Hasep.
  - apply Ascii.eqb_eq in Hasep. subst a. rewrite Hsep in Hs.
    destruct (IH Hs) as (part & Hin & Hp). exists part. split; [now right | assumption].
  - destruct (Ascii.eqb a c) eqn:Hac.
    + destruct (Str.split sep s) as [|piece pieces].
      * exists (String a ""). split; [now left |]. cbn [occurs]. now rewrite Hac.
      * exists (String a piece). split; [now left |]. cbn [occurs]. now rewrite Hac.
    + destruct (IH Hs) as (part & Hin & Hp).
      destruct (Str.split sep s) as [|piece pieces]; [destruct Hin |].
      destruct Hin as [<- | Hin].
      * exists (String a piece). split; [now left |]. cbn [occurs].
        now rewrite Hp, orb_true_r.
      * exists part. split; [now right | assumption].
Qed.

Lemma Version_new_colon (version : string) :
  occurs ":" version = true -> Version.new version = Raise InvalidVersion.
Proof.
  intros Hc. unfold Version.new.
  destruct (forallb Str.isdigit (Str.split "." version)) eqn:Hall; [|reflexivity].
  exfalso. destruct (occurs_split ":" "." version Hc eq_refl) as (part & Hin & Hp).
  rewrite forallb_forall in Hall. specialize (Hall part Hin).
  apply isdigit_all_digits in Hall.
  rewrite (all_digits_no_sep ":" part eq_refl Hall) in Hp. discriminate.
Qed.

Lemma ip_sort_key_colon (ip : string) :
  occurs ":" (Str.partition0 "/" ip) = true -> ip_sort_key ip = Key1 ip.
Proof. intros Hc. unfold ip_sort_key. now rewrite Version_new_colon. Qed.

(** X7. A string with a colon in its part before the slash, as every IPv6
    prefix has, is keyed by its whole text: two such strings compare as
    strings, mask included, and each sorts after the text of every IPv4
    network. *)
Theorem colon_keys_order_as_text (ip : string) :
  occurs ":" (Str.partition0 "/" ip) = true ->
  (forall ip', occurs ":" (Str.partition0 "/" ip') = true ->
               key_lt (ip_sort_key ip) (ip_sort_key ip') = String.ltb ip ip') /\
  (forall net, key_lt (ip_sort_key (Ip.string_of_network net)) (ip_sort_key ip) = true /\
               key_lt (ip_sort_key ip) (ip_sort_key (Ip.string_of_network net)) = false).
Proof.
  intros Hc. rewrite (ip_sort_key_colon ip Hc). split.
  - intros ip' Hc'. now rewrite (ip_sort_key_colon ip' Hc').
  - intros net. rewrite ip_sort_key_network. split; reflexivity.
Qed.

End SortMore.

(** * Further properties of the aggregation *)

Section AggregateMore.

Lemma aggregate_one_keeps (d : gmap Z (list string)) (item : string * origin)
      (a : Z) (ps : list string) (p : string) :
  d !! a = Some ps -> p ∈ ps ->
  exists ps', aggregate_one d item !! a = Some ps' /\ p ∈ ps'.
Proof.
  intros Hps Hp. destruct item as [prefix o].
  destruct (lookup_aggregate_one d prefix o a) as [[_ E] | [_ E]]; rewrite E.
  - rewrite Hps. simpl. eexists. split; [reflexivity |]. apply elem_of_app. now left.
  - eauto.
Qed.

Lemma aggregate_one_adds (d : gmap Z (list string)) (prefix : string) (o : origin) (a : Z) :
  originates o a ->
  exists ps', aggregate_one d (prefix, o) !! a = Some ps' /\ prefix ∈ ps'.
Proof.
  intros Ho. destruct (lookup_aggregate_one d prefix o a) as [[_ E] | [Hn _]];
    [|contradiction].
  rewrite E. eexists. split; [reflexivity |]. apply elem_of_app. right.
  apply list_elem_of_singleton. reflexivity.
Qed.

Lemma fold_aggregate_keeps (items : list (string * origin)) (d : gmap Z (list string))
      (a : Z) (ps : list string) (p : string) :
  d !! a = Some ps -> p ∈ ps ->
  exists ps', fold_left aggregate_one items d !! a = Some ps' /\ p ∈ ps'.
Proof.
  revert d ps. induction items as [|item items IH]; intros d ps Hps Hp; simpl; [eauto |].
  destruct (aggregate_one_keeps d item a ps p Hps Hp) as (ps1 & H1 & Hp1).
  eapply IH; eassumption.
Qed.

Lemma fold_aggregate_collects (items : list (string * origin)) (d : gmap Z (list string))
      (p : string) (o : origin) (a : Z) :
  (p, o) ∈ items -> originates o a ->
  exists ps, fold_left aggregate_one items d !! a = Some ps /\ p ∈ ps.
Proof.
  revert d. induction items as [|item items IH]; intros d Hin Ho; simpl.
  - now apply elem_of_nil in Hin.
  - apply elem_of_cons in Hin as [<- | Hin].
    + destruct (aggregate_one_adds d p o a Ho) as (ps1 & H1 & Hp1).
      eapply fold_aggregate_keeps; eassumption.
    + now apply IH.
Qed.

(** What the lists of [parse_rib_to_dict] hold. *)
Lemma parse_rib_to_dict_member (prefixes : list (string * origin)) (asn : Z) (p : string) :
  NoDup prefixes.*1 ->
  (exists ps, parse_rib_to_dict prefixes !! asn = Some ps /\ p ∈ ps) <->
  (exists o, (p, o) ∈ prefixes /\ originates o asn).
Proof.
  intros Hnd. unfold parse_rib_to_dict. split.
  - intros (ps & Hps & Hp). rewrite lookup_fmap in Hps.
    destruct (aggregate prefixes !! asn) as [ps0|] eqn:E0; [|discriminate].
    simpl in Hps. injection Hps as <-.
    destruct (aggregated_aggregate prefixes Hnd asn ps0 E0) as (_ & _ & Hfrom).
    apply Hfrom. now rewrite <- (sorted_perm ps0).
  - intros (o & Hin & Ho).
    destruct (fold_aggregate_collects prefixes ∅ p o asn Hin Ho) as (ps0 & E0 & Hp).
    exists (sorted ip_sort_key key_lt ps0). split.
    + rewrite lookup_fmap. unfold aggregate. now rewrite E0.
    + now rewrite (sorted_perm ps0).
Qed.

(** X8. For a prefix-to-origin dictionary, the map of [parse_rib_to_dict]
    has a key exactly for the ASNs that are an origin of some prefix, and
    the list of an ASN holds exactly the prefixes that it originates: no
    prefix is lost and none is attributed to a foreign ASN. *)
Theorem parse_rib_to_dict_contents (prefixes : list (string * origin)) (asn : Z) :
  NoDup prefixes.*1 ->
  (is_Some (parse_rib_to_dict prefixes !! asn) <->
   exists p o, (p, o) ∈ prefixes /\ originates o asn) /\
  (forall p, p ∈ default [] (parse_rib_to_dict prefixes !! asn) <->
             exists o, (p, o) ∈ prefixes /\ originates o asn).
Proof.
  intros Hnd. split.
  - split.
    + intros [ps Hps].
      assert (Hne : ps <> []).
      { unfold parse_rib_to_dict in Hps. rewrite lookup_fmap in Hps.
        destruct (aggregate prefixes !! asn) as [ps0|] eqn:E0; [|discriminate].
        simpl in Hps. injection Hps as <-.
        destruct (aggregated_aggregate prefixes Hnd asn ps0 E0) as (Hne & _).
        intros Hnil. pose proof (sorted_perm ps0) as Hperm. rewrite Hnil in Hperm.
        apply Permutation_nil_l in Hperm. congruence. }
      destruct ps as [|p ps]; [congruence |]. exists p.
      apply (parse_rib_to_dict_member prefixes asn p Hnd).
      exists (p :: ps). split; [assumption | left].
    + intros (p & o & Hin & Ho).
      destruct (proj2 (parse_rib_to_dict_member prefixes asn p Hnd)) as (ps & Hps & _);
        [eauto |].
      rewrite Hps. eauto.
  - intros p. rewrite <- (parse_rib_to_dict_member prefixes asn p Hnd).
    destruct (parse_rib_to_dict prefixes !! asn) as [ps|]; simpl.
    + split; [eauto |]. intros (ps' & [= <-] & Hp). exact Hp.
    + split; [intros H; now apply elem_of_nil in H |]. intros (ps' & [=] & _).
Qed.

End AggregateMore.

(** * Further properties of the regex map *)

Section RegexMore.

Variable IPv6Net : Type.
Variable IPv6Network : string -> bool -> option IPv6Net.
Variable grex : list string -> string.

Local Abbreviation ipnet := (ip_network IPv6Net IPv6Network).
Local Abbreviation extract := (extract_even_ipv4_networks IPv6Net IPv6Network).
Local Abbreviation add_prefix' := (add_prefix IPv6Net IPv6Network).
Local Abbreviation add_asn' := (add_asn IPv6Net IPv6Network).

Lemma has_token_add_chunk (asn : Z) (d d' : gmap Z (gset string)) (chunk : string)
      (a : Z) (tok : string) :
  add_chunk asn d chunk = Ok d' ->
  has_token d' a tok <-> has_token d a tok \/ (a = asn /\ tok = chunk /\ chunk <> "").
Proof.
  unfold add_chunk, has_token. destruct (String.eqb_spec chunk "") as [->|Hne].
  - intros [= <-]. split; [auto |]. intros [H | (_ & _ & H)]; [assumption | congruence].
  - intros [= <-]. destruct (decide (asn = a)) as [->|Hna].
    + rewrite lookup_insert_eq. split.
      * intros (toks & [= <-] & Hin). apply elem_of_union in Hin as [Hin|Hin].
        -- apply elem_of_singleton in Hin. right. auto.
        -- left. destruct (d !! a) as [old|]; simpl in Hin; [eauto |].
           now apply not_elem_of_empty in Hin.
      * intros [(toks & Hd & Hin) | (_ & -> & _)]; eexists; (split; [reflexivity |]).
        -- rewrite Hd. simpl. apply elem_of_union. now right.
        -- apply elem_of_union. left. now apply elem_of_singleton.
    + rewrite lookup_insert_ne by assumption. split; [auto |].
      intros [H | (E & _)]; [assumption | congruence].
Qed.

Lemma has_token_chunks (asn : Z) (chunks : list string) (d d' : gmap Z (gset string))
      (a : Z) (tok : string) :
  for_each chunks (add_chunk asn) d = Ok d' ->
  has_token d' a tok <->
  has_token d a tok \/ (a = asn /\ In tok chunks /\ tok <> "").
Proof.
  revert d. induction chunks as [|c chunks IH]; intros d E.
  - injection E as <-. split; [auto |]. intros [H | (_ & [] & _)]. assumption.
  - cbn [for_each] in E.
    destruct (add_chunk asn d c) as [d1|e] eqn:E1; [|discriminate].
    change (Ok d1 ≫= ?f) with (f d1) in E. cbv beta in E.
    rewrite (IH d1 E), (has_token_add_chunk asn d d1 c a tok E1). cbn [In].
    split.
    + intros [[H | (Ha & -> & Hne)] | (Ha & Hin & Hne)]; auto.
    + intros [H | (Ha & [<- | Hin] & Hne)]; auto.
Qed.

Lemma has_token_prefixes (asn : Z) (ps : list string) (d d' : gmap Z (gset string))
      (a : Z) (tok : string) :
  for_each ps (add_prefix' asn) d = Ok d' ->
  has_token d' a tok <->
  has_token d a tok \/
  (a = asn /\ exists p toks, In p ps /\ extract p = Ok toks /\ In tok toks).
Proof.
  revert d. induction ps as [|p ps IH]; intros d E.
  - injection E as <-. split; [auto |]. intros [H | (_ & p & toks & [] & _)]. assumption.
  - cbn [for_each] in E.
    destruct (add_prefix' asn d p) as [d1|e] eqn:E1; [|discriminate].
    change (Ok d1 ≫= ?f) with (f d1) in E. cbv beta in E.
    unfold add_prefix in E1.
    destruct (extract p) as [chunks|e] eqn:Ep; [|discriminate].
    change (Ok chunks ≫= ?f) with (f chunks) in E1. cbv beta in E1.
    rewrite (IH d1 E), (has_token_chunks asn chunks d d1 a tok E1). cbn [In].
    split.
    + intros [[H | (Ha & Hin & _)] | (Ha & q & toks & Hq & Eq & Hin)]; [auto | |].
      * right. split; [assumption |]. exists p, chunks. auto.
      * right. split; [assumption |]. exists q, toks. auto.
    + intros [H | (Ha & q & toks & [<- | Hq] & Eq & Hin)]; [auto | |].
      * left. right. split; [assumption |].
        assert (toks = chunks) by congruence. subst toks. split; [assumption |].
        eapply extract_token_not_empty; eassumption.
      * right. split; [assumption |]. exists q, toks. auto.
Qed.

Lemma has_token_asns (l : list (Z * list string)) (d d' : gmap Z (gset string))
      (a : Z) (tok : string) :
  for_each l add_asn' d = Ok d' ->
  has_token d' a tok <->
  has_token d a tok \/
  (exists ps p toks, In (a, ps) l /\ In p ps /\ extract p = Ok toks /\ In tok toks).
Proof.
  revert d. induction l as [|[asn ps] l IH]; intros d E.
  - injection E as <-. split; [auto |]. intros [H | (ps & p & toks & [] & _)]. assumption.
  - cbn [for_each] in E.
    destruct (add_asn' d (asn, ps)) as [d1|e] eqn:E1; [|discriminate].
    change (Ok d1 ≫= ?f) with (f d1) in E. cbv beta in E.
    unfold add_asn in E1. cbn [fst snd] in E1.
    rewrite (IH d1 E), (has_token_prefixes asn ps d d1 a tok E1). cbn [In].
    split.
    + intros [[H | (-> & p & toks & Hp & Ep & Hin)] | (ps' & p & toks & Hl & Hp & Ep & Hin)];
        [auto | |]; right; eauto 10.
    + intros [H | (ps' & p & toks & [[= <- <-] | Hl] & Hp & Ep & Hin)]; [auto | |].
      * left. right. split; [reflexivity |]. eauto.
      * right. eauto 10.
Qed.

(** What the token sets of [build_asn_to_even_prefixes] hold. *)
Lemma even_prefixes_member (asn_dict : gmap Z (list string)) (even : gmap Z (gset string))
      (asn : Z) (tok : string) :
  build_asn_to_even_prefixes IPv6Net IPv6Network asn_dict = Ok even ->
  has_token even asn tok <->
  exists ps p toks, asn_dict !! asn = Some ps /\ p ∈ ps /\
                    extract p = Ok toks /\ In tok toks.
Proof.
  intros E. unfold build_asn_to_even_prefixes in E.
  rewrite (has_token_asns _ _ _ asn tok E). split.
  - intros [(toks & H & _) | (ps & p & toks & Hl & Hp & Ep & Hin)].
    + now rewrite lookup_empty in H.
    + exists ps, p, toks. split; [|split; [now apply list_elem_of_In | auto]].
      apply elem_of_map_to_list. now apply list_elem_of_In.
  - intros (ps & p & toks & Hd & Hp & Ep & Hin). right.
    exists ps, p, toks. split; [|split; [now apply list_elem_of_In | auto]].
    apply list_elem_of_In. now apply elem_of_map_to_list.
Qed.

(** X9. When [build_asn_to_even_prefixes] returns, the token set of an ASN
    holds exactly the tokens that the decomposer yields for the prefixes
    of that ASN: tokens of several prefixes are merged, none is lost and
    none comes from the prefixes of another ASN. *)
Theorem even_prefixes_contents (asn_dict : gmap Z (list string))
        (even : gmap Z (gset string)) (asn : Z) (tok : string) :
  build_asn_to_even_prefixes IPv6Net IPv6Network asn_dict = Ok even ->
  tok ∈ default ∅ (even !! asn) <->
  exists ps p toks, asn_dict !! asn = Some ps /\ p ∈ ps /\
                    extract_even_ipv4_networks IPv6Net IPv6Network p = Ok toks /\
                    In tok toks.
Proof.
  intros E. rewrite <- (even_prefixes_member asn_dict even asn tok E).
  unfold has_token. destruct (even !! asn) as [toks|]; simpl.
  - split; [eauto |]. intros (toks' & [= <-] & H). exact H.
  - split; [intros H; now apply not_elem_of_empty in H |]. intros (toks' & [=] & _).
Qed.

Lemma for_each_raises {A S : Type} (e : exn) (l : list A)
      (body : S -> A -> res S) (s : S) (x : A) :
  In x l ->
  (forall s, body s x = Raise e) ->
  (forall s y, In y l -> (exists s', body s y = Ok s') \/ body s y = Raise e) ->
  for_each l body s = Raise e.
Proof.
  revert s. induction l as [|y l IH]; intros s Hin Hx Hall; [destruct Hin |].
  cbn [for_each]. destruct (Hall s y) as [[s' E] | E]; [now left | | now rewrite E].
  rewrite E. change (Ok s' ≫= ?f) with (f s'). cbv beta.
  destruct Hin as [-> | Hin]; [rewrite Hx in E; discriminate |].
  apply IH; [assumption.. |]. intros s0 z Hz. apply Hall. now right.
Qed.

Lemma add_prefix_result (asn : Z) (d : gmap Z (gset string)) (p : string) :
  (exists d', add_prefix' asn d p = Ok d') \/ add_prefix' asn d p = Raise ValueError.
Proof.
  unfold add_prefix. destruct (extract p) as [chunks|e] eqn:Ep.
  - left. change (Ok chunks ≫= ?f) with (f chunks). cbv beta.
    destruct (for_each_ok (fun _ => True) chunks (add_chunk asn) d I) as (d' & E & _);
      [|eauto].
    intros s c _ _. destruct (add_chunk_ok _ IPv6Network asn s c) as (s' & Es & _). eauto.
  - right. apply extract_error in Ep.
    destruct (ip_network_lenient_error _ _ p e Ep) as (-> & _). reflexivity.
Qed.

Lemma add_asn_result (d : gmap Z (gset string)) (item : Z * list string) :
  (exists d', add_asn' d item = Ok d') \/ add_asn' d item = Raise ValueError.
Proof.
  unfold add_asn. generalize (fst item) as asn. intros asn. revert d.
  induction (snd item) as [|p ps IH]; intros d; cbn [for_each]; [eauto |].
  destruct (add_prefix_result asn d p) as [[d1 E] | E]; rewrite E; [|now right].
  change (Ok d1 ≫= ?f) with (f d1). cbv beta. apply IH.
Qed.

(** X10. One prefix that is neither an IPv4 nor an IPv6 network makes both
    builders raise [ValueError], whatever the rest of the map holds:
    nothing is skipped and no partial map is returned. *)
Theorem bad_prefix_aborts_build (asn_dict : gmap Z (list string)) (asn : Z)
        (ps : list string) (p : string) (e : exn) :
  asn_dict !! asn = Some ps -> p ∈ ps ->
  ip_network IPv6Net IPv6Network p false = Raise e ->
  build_asn_to_even_prefixes IPv6Net IPv6Network asn_dict = Raise ValueError /\
  build_asn_to_regex IPv6Net IPv6Network grex asn_dict = Raise ValueError.
Proof.
  intros Hps Hp Hbad.
  assert (He : e = ValueError)
    by (destruct (ip_network_lenient_error _ _ p e Hbad) as (-> & _); reflexivity).
  subst e.
  assert (Hraise : forall d, add_prefix' asn d p = Raise ValueError).
  { intros d. unfold add_prefix, extract_even_ipv4_networks. now rewrite Hbad. }
  assert (Hasn : forall d, add_asn' d (asn, ps) = Raise ValueError).
  { intros d. unfold add_asn. cbn [fst snd].
    apply (for_each_raises ValueError ps (add_prefix' asn) d p).
    - now apply list_elem_of_In.
    - exact Hraise.
    - intros s y _. apply add_prefix_result. }
  assert (Heven : build_asn_to_even_prefixes IPv6Net IPv6Network asn_dict
                  = Raise ValueError).
  { unfold build_asn_to_even_prefixes.
    apply (for_each_raises ValueError (map_to_list asn_dict) add_asn' ∅ (asn, ps)).
    - apply list_elem_of_In. now apply elem_of_map_to_list.
    - exact Hasn.
    - intros s y _. apply add_asn_result. }
  split; [exact Heven |]. unfold build_asn_to_regex. now rewrite Heven.
Qed.

(** X11. The two steps of the script composed: for a prefix-to-origin
    dictionary in which every prefix is a network, the regex map built
    from [parse_rib_to_dict] has a pattern exactly for the ASNs that are
    an origin of at least one IPv4 prefix. *)
Theorem regex_keys_are_ipv4_origins (prefixes : list (string * origin)) :
  NoDup prefixes.*1 ->
  (forall p o, (p, o) ∈ prefixes ->
               exists net, ip_network IPv6Net IPv6Network p false = Ok net) ->
  exists regexes,
    build_asn_to_regex IPv6Net IPv6Network grex (parse_rib_to_dict prefixes) = Ok regexes /\
    forall asn,
      is_Some (regexes !! asn) <->
      exists p o net4, (p, o) ∈ prefixes /\ originates o asn /\
                       ip_network IPv6Net IPv6Network p false = Ok (V4 IPv6Net net4).
Proof.
  intros Hnd Hparse.
  assert (Hparse_d : forall asn ps p,
             parse_rib_to_dict prefixes !! asn = Some ps -> p ∈ ps ->
             exists net, ipnet p false = Ok net).
  { intros asn ps p Hps Hp.
    destruct (proj1 (parse_rib_to_dict_member prefixes asn p Hnd)) as (o & Hin & _);
      [eauto |].
    eapply Hparse. eassumption. }
  destruct (even_prefixes_ok IPv6Net IPv6Network _ Hparse_d) as (even & Eeven & Hne & _).
  destruct (regex_loop_ok grex (map_to_list even) ∅) as (regexes & Ereg & Hreg).
  { apply NoDup_fst_map_to_list. }
  { intros a toks Hin. apply elem_of_map_to_list in Hin. eapply Hne. eassumption. }
  rewrite list_to_map_to_list in Hreg.
  exists regexes. split.
  { unfold build_asn_to_regex. rewrite Eeven.
    change (Ok even ≫= ?f) with (f even). cbv beta. exact Ereg. }
  intros asn.
  assert (Hkeys : is_Some (regexes !! asn) <-> exists tok, has_token even asn tok).
  { rewrite Hreg. unfold has_token. split.
    - destruct (even !! asn) as [toks|] eqn:E.
      + intros _. pose proof (Hne asn toks E) as Hnonempty.
        destruct (elements toks) as [|tok rest] eqn:El; [congruence |].
        exists tok, toks. split; [reflexivity |].
        apply elem_of_elements. rewrite El. left.
      + rewrite lookup_empty. intros [x Hx]. discriminate.
    - intros (tok & toks & E & _). rewrite E. eauto. }
  rewrite Hkeys. split.
  - intros (tok & Htok).
    apply (even_prefixes_member _ even asn tok Eeven) in Htok
      as (ps & p & toks & Hps & Hp & Ep & Hin).
    destruct (proj1 (parse_rib_to_dict_member prefixes asn p Hnd)) as (o & Hpo & Ho);
      [eauto |].
    destruct (Hparse p o Hpo) as [net Hnet].
    destruct (extract_of_network _ _ p net Hnet) as (toks' & E' & Hshape).
    assert (toks' = toks) by congruence. subst toks'.
    destruct net as [net4|net6]; [eauto 10 |]. subst toks. destruct Hin.
  - intros (p & o & net4 & Hpo & Ho & Hnet).
    destruct (proj2 (parse_rib_to_dict_member prefixes asn p Hnd)) as (ps & Hps & Hp);
      [eauto |].
    destruct (extract_of_network _ _ p _ Hnet) as (toks & Ep & _).
    pose proof (extract_V4_not_nil _ _ p net4 toks Hnet Ep) as Hnn.
    destruct toks as [|tok rest]; [congruence |].
    exists tok. apply (even_prefixes_member _ even asn tok Eeven).
    exists ps, p, (tok :: rest). split; [assumption |]. split; [assumption |].
    split; [assumption | now left].
Qed.

End RegexMore.

(** * Further properties of the file name *)

Section FilenameMore.

Lemma build_filename_value (now : Datetime.datetime) (fuel : nat) :
  valid_now now -> (1 <= fuel)%nat ->
  build_filename fuel now =
  Some (Ok (rib_url (Datetime.year now) (Datetime.month now) (Datetime.day now)
                    (2 * (Datetime.hour now / 2)))).
Proof.
  intros Hv Hfuel. pose proof Hv as (Ho & Hh & Hm & Hs).
  pose proof (Z.div_mod (Datetime.hour now) 2 ltac:(lia)) as Hdm.
  pose proof (Z.mod_pos_bound (Datetime.hour now) 2 ltac:(lia)) as Hmod.
  assert (Hcases : Datetime.hour now mod 2 = 0 \/ Datetime.hour now mod 2 = 1) by lia.
  unfold build_filename. destruct Hcases as [He|Hodd].
  - assert (El : last_even_hour fuel now = Some (Ok now)).
    { destruct fuel; simpl; rewrite He; reflexivity. }
    rewrite El, strftime_rib. do 3 f_equal. lia.
  - assert (El : last_even_hour fuel now =
                 Some (Ok (Datetime.mk (Datetime.ordinal now) (Datetime.hour now - 1)
                                       (Datetime.minute now) (Datetime.second now)
                                       (Datetime.microsecond now)))).
    { assert (H1 : 1 <= Datetime.hour now) by lia.
      destruct fuel as [|fuel]; [lia |]. simpl. rewrite Hodd. cbn [Z.eqb negb].
      rewrite sub_one_hour by assumption.
      assert (Heven : (Datetime.hour now - 1) mod 2 = 0).
      { replace (Datetime.hour now - 1) with (Datetime.hour now / 2 * 2) by lia.
        apply Z.mod_mul. lia. }
      destruct fuel; simpl; rewrite Heven; reflexivity. }
    rewrite El, strftime_rib.
    replace (2 * (Datetime.hour now / 2)) with (Datetime.hour now - 1) by lia.
    reflexivity.
Qed.

(** X12. The URL depends on the day and on the two-hour slot only: two
    valid times of the same day whose hours fall into the same slot give
    the same URL, whatever their minutes, seconds and microseconds and
    whatever fuel (at least 1) the loop is given. *)
Theorem build_filename_same_slot (now1 now2 : Datetime.datetime) (fuel1 fuel2 : nat) :
  valid_now now1 -> valid_now now2 ->
  (1 <= fuel1)%nat -> (1 <= fuel2)%nat ->
  Datetime.ordinal now1 = Datetime.ordinal now2 ->
  Datetime.hour now1 / 2 = Datetime.hour now2 / 2 ->
  build_filename fuel1 now1 = build_filename fuel2 now2.
Proof.
  intros Hv1 Hv2 Hf1 Hf2 Hord Hslot.
  rewrite (build_filename_value now1 fuel1 Hv1 Hf1).
  rewrite (build_filename_value now2 fuel2 Hv2 Hf2).
  unfold Datetime.year, Datetime.month, Datetime.day. now rewrite Hord, Hslot.
Qed.

End FilenameMore.

(** * Overlap and over-matching of tokens *)

Section TokenMatching.

Variable IPv6Net : Type.
Variable IPv6Network : string -> bool -> option IPv6Net.

(** X13. For a prefix of length at most 24, an address starts with at most
    one of the yielded tokens: the tokens are alternatives that never
    overlap. *)
Theorem coarse_token_unique (s : string) (net : Ip.IPv4Network) (toks : list string)
        (tok1 tok2 : string) (addr : Z) :
  ip_network IPv6Net IPv6Network s false = Ok (V4 IPv6Net net) ->
  Ip.prefixlen net <= 24 ->
  extract_even_ipv4_networks IPv6Net IPv6Network s = Ok toks ->
  In tok1 toks -> In tok2 toks ->
  0 <= addr < 2 ^ 32 ->
  Str.startswith (Ip.string_from_ip_int addr) tok1 = true ->
  Str.startswith (Ip.string_from_ip_int addr) tok2 = true ->
  tok1 = tok2.
Proof.
  intros Hnet Hp E H1 H2 Haddr Hs1 Hs2. apply ip_network_V4_inv in Hnet.
  pose proof (IPv4Network_new_wf _ _ _ Hnet) as Hwf.
  pose proof (extract_coarse IPv6Net IPv6Network s net Hnet Hp) as E'.
  assert (Et : toks = map (token (bucket (Ip.prefixlen net)))
                          (Ip.range (Ip.network_address net)
                                    (Ip.network_address net + 2 ^ (32 - Ip.prefixlen net))
                                    (2 ^ (32 - bucket (Ip.prefixlen net)))))
    by congruence.
  rewrite Et in H1, H2.
  apply in_map_iff in H1 as (sub1 & <- & Hsub1), H2 as (sub2 & <- & Hsub2).
  destruct (coarse_subnet_facts net sub1 Hwf Hp Hsub1) as (Hr1 & Hal1 & _).
  destruct (coarse_subnet_facts net sub2 Hwf Hp Hsub2) as (Hr2 & Hal2 & _).
  pose proof (startswith_token_block _ addr sub1 (bucket_cases _) Haddr Hr1 Hal1 Hs1) as B1.
  pose proof (startswith_token_block _ addr sub2 (bucket_cases _) Haddr Hr2 Hal2 Hs2) as B2.
  congruence.
Qed.

Lemma of_int_extends (b d : Z) :
  1 <= b -> 0 <= d <= 9 -> 10 * b + d <= 255 ->
  Str.startswith (Str.of_int (10 * b + d)) (Str.of_int b) = true.
Proof.
  intros Hb Hd Hmax.
  assert (Hall : forallb (fun b => forallb (fun d =>
                    if (1 <=? b) && (10 * b + d <=? 255)
                    then Str.startswith (Str.of_int (10 * b + d)) (Str.of_int b)
                    else true) [0; 1; 2; 3; 4; 5; 6; 7; 8; 9]) byte_values = true)
    by (vm_compute; reflexivity).
  pose proof (for_all_byte_values _ Hall b ltac:(lia)) as Hb'. cbv beta in Hb'.
  rewrite forallb_forall in Hb'.
  assert (Hin : In d [0; 1; 2; 3; 4; 5; 6; 7; 8; 9]) by (cbn [In]; lia).
  specialize (Hb' d Hin). cbv beta in Hb'.
  destruct (Z.leb_spec 1 b); [|lia].
  destruct (Z.leb_spec (10 * b + d) 255); [|lia]. exact Hb'.
Qed.

(** X14. For a prefix of length 25 to 32 the tokens are whole addresses,
    and a whole address is also the beginning of other addresses: an
    address that shares the first three octets with an address of the
    network and whose last octet is the last octet of that address with
    one more digit starts with a yielded token, even when it lies outside
    the network. *)
Theorem fine_tokens_match_longer_octet (s : string) (net : Ip.IPv4Network)
        (toks : list string) (x y d : Z) :
  ip_network IPv6Net IPv6Network s false = Ok (V4 IPv6Net net) ->
  25 <= Ip.prefixlen net ->
  extract_even_ipv4_networks IPv6Net IPv6Network s = Ok toks ->
  Ip.contains net x = true ->
  0 <= y < 2 ^ 32 ->
  y / 256 = x / 256 ->
  1 <= x mod 256 -> 0 <= d <= 9 ->
  y mod 256 = 10 * (x mod 256) + d ->
  Ip.contains net y = false ->
  In (Ip.string_from_ip_int x) toks /\
  Str.startswith (Ip.string_from_ip_int y) (Ip.string_from_ip_int x) = true.
Proof.
  intros Hnet Hp E Hx Hy Hhi Hb Hd Hlast _. apply ip_network_V4_inv in Hnet.
  pose proof (IPv4Network_new_wf _ _ _ Hnet) as Hwf.
  pose proof (extract_fine IPv6Net IPv6Network s net Hnet Hp) as E'.
  assert (Et : toks = map Ip.string_from_ip_int (fine_addresses net)) by congruence.
  split.
  - rewrite Et. apply in_map. apply in_fine_addresses; [assumption.. |].
    unfold Ip.contains in Hx. apply andb_true_iff in Hx as [H1 H2].
    apply Z.leb_le in H1, H2. lia.
  - rewrite !string_from_ip_int_eq.
    assert (Hbytes : forall j, 8 <= j -> Z.shiftr y j = Z.shiftr x j).
    { intros j Hj. rewrite !Z.shiftr_div_pow2 by lia.
      replace (2 ^ j) with (256 * 2 ^ (j - 8))
        by (change 256 with (2 ^ 8); rewrite <- Z.pow_add_r by lia; f_equal; lia).
      assert (0 < 2 ^ (j - 8)) by (apply Z.pow_pos_nonneg; lia).
      rewrite <- !Z.div_div by lia. now rewrite Hhi. }
    rewrite !Hbytes by lia. do 6 rewrite startswith_cancel.
    change 255 with (Z.ones 8). rewrite !Z.land_ones by lia. change (2 ^ 8) with 256.
    rewrite Hlast. pose proof (Z.mod_pos_bound y 256 ltac:(lia)).
    apply of_int_extends; lia.
Qed.

End TokenMatching.

(** * The lists of the map: order and AS_SET entries *)

Section MapLists.

Lemma parse_octet_text (o : string) (b : Z) :
  Ip.parse_octet o = Ok b -> Str.isdigit o = true /\ Str.int o = b.
Proof.
  unfold Ip.parse_octet. destruct (Str.isdigit o); cbn [negb]; [|discriminate].
  destruct (3 <? _); [discriminate |].
  destruct (_ && _); [discriminate |].
  destruct (255 <? _); [discriminate |]. intros [= <-]. auto.
Qed.

Lemma Version_new_address (a : string) (x : Z) :
  Ip.ip_int_from_string a = Ok x ->
  exists b0 b1 b2 b3,
    Version.new a = Ok (Version.mk [b0; b1; b2; b3]) /\
    Ip.from_bytes [b0; b1; b2; b3] = x /\
    0 <= b0 < 256 /\ 0 <= b1 < 256 /\ 0 <= b2 < 256 /\ 0 <= b3 < 256.
Proof.
  unfold Ip.ip_int_from_string, Version.new.
  destruct (String.eqb a ""); [discriminate |].
  destruct (Str.split "." a) as [|o0 [|o1 [|o2 [|o3 [|o4 os]]]]]; try discriminate.
  - change (negb (Z.of_nat (length [o0; o1; o2; o3]) =? 4)) with false. cbv iota.
    cbn [Ip.parse_octets].
    destruct (Ip.parse_octet o0) as [b0|] eqn:H0; [|discriminate].
    destruct (Ip.parse_octet o1) as [b1|] eqn:H1; [|discriminate].
    destruct (Ip.parse_octet o2) as [b2|] eqn:H2; [|discriminate].
    destruct (Ip.parse_octet o3) as [b3|] eqn:H3; [|discriminate].
    change (Ok b0 ≫= ?f) with (f b0). cbv beta.
    change (Ok b1 ≫= ?f) with (f b1). cbv beta.
    change (Ok b2 ≫= ?f) with (f b2). cbv beta.
    change (Ok b3 ≫= ?f) with (f b3). cbv beta.
    change (Ok [] ≫= ?f) with (f (@nil Z)). cbv beta.
    change (Ok [b3] ≫= ?f) with (f [b3]). cbv beta.
    change (Ok [b2; b3] ≫= ?f) with (f [b2; b3]). cbv beta.
    change (Ok [b1; b2; b3] ≫= ?f) with (f [b1; b2; b3]). cbv beta.
    intros [= <-].
    pose proof (parse_octet_range _ _ H0). pose proof (parse_octet_range _ _ H1).
    pose proof (parse_octet_range _ _ H2). pose proof (parse_octet_range _ _ H3).
    apply parse_octet_text in H0 as [D0 I0], H1 as [D1 I1], H2 as [D2 I2], H3 as [D3 I3].
    exists b0, b1, b2, b3. cbn [forallb map].
    rewrite D0, D1, D2, D3, I0, I1, I2, I3. cbn [andb]. auto 10.
  - intros H. exfalso. revert H.
    change (Z.of_nat (length (o0 :: o1 :: o2 :: o3 :: o4 :: os)))
      with (Z.of_nat (S (S (S (S (S (length os))))))).
    destruct (Z.eqb_spec (Z.of_nat (S (S (S (S (S (length os))))))) 4); [lia |].
    discriminate.
Qed.

Lemma Version_lt_bytes (a0 a1 a2 a3 b0 b1 b2 b3 : Z) :
  0 <= a0 < 256 -> 0 <= a1 < 256 -> 0 <= a2 < 256 -> 0 <= a3 < 256 ->
  0 <= b0 < 256 -> 0 <= b1 < 256 -> 0 <= b2 < 256 -> 0 <= b3 < 256 ->
  Version.lt (Version.mk [a0; a1; a2; a3]) (Version.mk [b0; b1; b2; b3]) =
  (Ip.from_bytes [a0; a1; a2; a3] <? Ip.from_bytes [b0; b1; b2; b3]).
Proof.
  intros. unfold Version.lt, Version.cmpkey. cbn [Version.release].
  change (Version.tuple_lt (strip [a0; a1; a2; a3]) (strip [b0; b1; b2; b3]) =
          (Ip.from_bytes [a0; a1; a2; a3] <? Ip.from_bytes [b0; b1; b2; b3])).
  rewrite tuple_lt_strip; [now apply tuple_lt_bytes | reflexivity | |];
    repeat constructor; lia.
Qed.

Lemma keys_ordered_ipv4 (s t : string) (x y : Z) :
  ipv4_text s x -> ipv4_text t y -> keys_ordered s t -> x <= y.
Proof.
  unfold ipv4_text, keys_ordered, key_le, ip_sort_key. intros Hs Ht.
  destruct (Version_new_address _ _ Hs) as (a0 & a1 & a2 & a3 & -> & <- & ? & ? & ? & ?).
  destruct (Version_new_address _ _ Ht) as (b0 & b1 & b2 & b3 & -> & <- & ? & ? & ? & ?).
  cbn [key_lt]. rewrite Version_lt_bytes by assumption.
  intros Hord. apply negb_true_iff, Z.ltb_ge in Hord. exact Hord.
Qed.

Lemma keys_ordered_ipv6_first (s t : string) (y : Z) :
  ipv6_text s -> ipv4_text t y -> ~ keys_ordered s t.
Proof.
  unfold ipv6_text, ipv4_text, keys_ordered, key_le. intros Hs Ht.
  rewrite (ip_sort_key_colon s Hs). unfold ip_sort_key.
  destruct (Version_new_address _ _ Ht) as (b0 & b1 & b2 & b3 & -> & _).
  cbn [key_lt negb]. discriminate.
Qed.

Lemma keys_ordered_ipv6 (s t : string) :
  ipv6_text s -> ipv6_text t -> keys_ordered s t -> String.leb s t = true.
Proof.
  unfold ipv6_text, keys_ordered, key_le. intros Hs Ht.
  rewrite (ip_sort_key_colon s Hs), (ip_sort_key_colon t Ht). cbn [key_lt].
  now rewrite negb_ltb_leb.
Qed.

Lemma lookup_parse_rib_to_dict (prefixes : list (string * origin)) (asn : Z)
      (ps : list string) :
  parse_rib_to_dict prefixes !! asn = Some ps ->
  exists ps0, aggregate prefixes !! asn = Some ps0 /\
              ps = sorted ip_sort_key key_lt ps0.
Proof.
  unfold parse_rib_to_dict. rewrite lookup_fmap.
  destruct (aggregate prefixes !! asn) as [ps0|]; [|discriminate].
  intros [= <-]. eauto.
Qed.

(** C3. In the map that [parse_rib_to_dict] returns for a dictionary
    whose keys are prefix texts, the list of an ASN is a permutation of
    the list that the aggregation loop collected, every entry is a prefix
    text, and of two entries the earlier one is never an IPv6 text before
    an IPv4 text; two IPv4 texts stand in the numeric order of their
    addresses (so [10.2.0.0/24] before [10.10.0.0/24]), two IPv6 texts in
    the lexicographic order of the strings. *)
Theorem prefix_lists_sorted (prefixes : list (string * origin)) (asn : Z)
        (ps : list string) :
  NoDup prefixes.*1 ->
  (forall p o, (p, o) ∈ prefixes -> prefix_text p) ->
  parse_rib_to_dict prefixes !! asn = Some ps ->
  (exists ps0, aggregate prefixes !! asn = Some ps0 /\ ps ≡ₚ ps0) /\
  (forall s, s ∈ ps -> prefix_text s) /\
  forall (i j : nat) (s t : string),
    (i < j)%nat -> ps !! i = Some s -> ps !! j = Some t ->
    (forall x y, ipv4_text s x -> ipv4_text t y -> x <= y) /\
    (ipv6_text s -> forall y, ~ ipv4_text t y) /\
    (ipv6_text s -> ipv6_text t -> String.leb s t = true).
Proof.
  intros Hnd Hdom Hps.
  destruct (lookup_parse_rib_to_dict prefixes asn ps Hps) as (ps0 & E0 & ->).
  destruct (aggregated_aggregate prefixes Hnd asn ps0 E0) as (_ & _ & Hfrom).
  split; [exists ps0; split; [assumption | apply sorted_perm] |].
  split.
  - intros s Hs. rewrite sorted_perm in Hs.
    destruct (Hfrom s Hs) as (o & Hin & _). eapply Hdom. eassumption.
  - intros i j s t Hij Hi Hj.
    pose proof (StronglySorted_lookup _ _ _ _ _ _ (sorted_ordered ps0) Hij Hi Hj) as Hord.
    split; [|split].
    + intros x y Hx Hy. eapply keys_ordered_ipv4; eassumption.
    + intros H6 y H4. eapply keys_ordered_ipv6_first; eassumption.
    + intros Hs Ht. now apply keys_ordered_ipv6.
Qed.

Lemma same_key_same_origin (prefixes : list (string * origin)) (p : string)
      (o1 o2 : origin) :
  NoDup prefixes.*1 -> (p, o1) ∈ prefixes -> (p, o2) ∈ prefixes -> o1 = o2.
Proof.
  intros Hnd H1 H2.
  pose proof (elem_of_list_to_map_1 (M := gmap string) prefixes p o1 Hnd H1) as E1.
  pose proof (elem_of_list_to_map_1 (M := gmap string) prefixes p o2 Hnd H2) as E2.
  congruence.
Qed.

(** C6. A prefix of the dictionary whose origin is an AS_SET stands in
    the map of [parse_rib_to_dict] once in the list of every ASN of the
    set, and in the list of no other ASN. *)
Theorem as_set_prefix_listed_per_member (prefixes : list (string * origin))
        (prefix : string) (asns : gset Z) (asn : Z) :
  NoDup prefixes.*1 ->
  (prefix, AsSet asns) ∈ prefixes ->
  (asn ∈ asns ->
   exists ps, parse_rib_to_dict prefixes !! asn = Some ps /\
              count_occ string_dec ps prefix = 1%nat) /\
  (asn ∉ asns -> prefix ∉ default [] (parse_rib_to_dict prefixes !! asn)).
Proof.
  intros Hnd Hin. split.
  - intros Hasn.
    destruct (proj2 (parse_rib_to_dict_member prefixes asn prefix Hnd))
      as (ps & Hps & Hp); [exists (AsSet asns); split; assumption |].
    exists ps. split; [assumption |].
    destruct (lookup_parse_rib_to_dict prefixes asn ps Hps) as (ps0 & E0 & ->).
    destruct (aggregated_aggregate prefixes Hnd asn ps0 E0) as (_ & Hnd0 & _).
    assert (Hnds : NoDup (sorted ip_sort_key key_lt ps0)) by now rewrite sorted_perm.
    apply NoDup_ListNoDup in Hnds.
    pose proof (proj1 (NoDup_count_occ string_dec _) Hnds prefix) as Hle.
    apply list_elem_of_In in Hp.
    pose proof (proj1 (count_occ_In string_dec _ prefix) Hp) as Hgt. lia.
  - intros Hout Hp.
    assert (Hmem : exists ps, parse_rib_to_dict prefixes !! asn = Some ps /\ prefix ∈ ps).
    { destruct (parse_rib_to_dict prefixes !! asn) as [ps|]; simpl in Hp; [eauto |].
      now apply elem_of_nil in Hp. }
    apply (parse_rib_to_dict_member prefixes asn prefix Hnd) in Hmem as (o & Ho & Horig).
    rewrite (same_key_same_origin prefixes prefix o (AsSet asns) Hnd Ho Hin) in Horig.
    exact (Hout Horig).
Qed.

End MapLists.

(** * Worked instances of the further properties *)

Lemma extract_tokens_nonempty_witness :
  (forall tok, In tok ["10.0."] -> tok <> "") /\
  (forall net, ip_network unit colon_ipv6 "10.0.0.0/16" false = Ok (V4 unit net) ->
               ["10.0."] <> []).
Proof.
  apply (extract_tokens_nonempty unit colon_ipv6 "10.0.0.0/16" ["10.0."]).
  vm_compute. reflexivity.
Defined.

Lemma coarse_tokens_distinct_witness :
  NoDup ["10."; "11."] /\ Z.of_nat (length ["10."; "11."]) = 2.
Proof.
  apply (coarse_tokens_distinct unit colon_ipv6 "10.0.0.0/7" (Ip.mkNet 167772160 7)
           ["10."; "11."]).
  - vm_compute. reflexivity.
  - simpl. lia.
  - vm_compute. reflexivity.
Defined.

Lemma coarse_tokens_match_only_prefix_witness :
  Ip.contains (Ip.mkNet 167772160 16) 167772161 = true.
Proof.
  apply (coarse_tokens_match_only_prefix unit colon_ipv6 "10.0.0.0/16"
           (Ip.mkNet 167772160 16) ["10.0."] "10.0." 167772161).
  - vm_compute. reflexivity.
  - simpl. lia.
  - vm_compute. reflexivity.
  - left. reflexivity.
  - split; [vm_compute; discriminate | vm_compute; reflexivity].
  - vm_compute. reflexivity.
Defined.

Lemma fine_tokens_are_the_addresses_witness :
  In "192.168.1.2" ["192.168.1.0"; "192.168.1.1"; "192.168.1.2"; "192.168.1.3"] <->
  exists addr, Ip.contains (Ip.mkNet 3232235776 30) addr = true /\
               "192.168.1.2" = Ip.string_from_ip_int addr.
Proof.
  apply (fine_tokens_are_the_addresses unit colon_ipv6 "192.168.1.0/30"
           (Ip.mkNet 3232235776 30)).
  - vm_compute. reflexivity.
  - simpl. lia.
  - vm_compute. reflexivity.
Defined.

Lemma extract_raises_only_ValueError_witness :
  extract_even_ipv4_networks unit colon_ipv6 "not-a-prefix" = Raise ValueError /\
  colon_ipv6 "not-a-prefix" false = None /\
  exists e', Ip.IPv4Network_new "not-a-prefix" false = Raise e'.
Proof.
  assert (H : extract_even_ipv4_networks unit colon_ipv6 "not-a-prefix" = Raise ValueError)
    by (vm_compute; reflexivity).
  split; [exact H |].
  exact (proj2 (extract_raises_only_ValueError unit colon_ipv6 "not-a-prefix" ValueError H)).
Defined.

Lemma ipv4_keys_order_by_address_witness :
  key_lt (ip_sort_key "10.2.0.0/24") (ip_sort_key "10.10.0.0/24") = true.
Proof.
  apply (ipv4_keys_order_by_address (Ip.mkNet 167903232 24) (Ip.mkNet 168427520 24));
    unfold wf; cbn [Ip.prefixlen Ip.network_address]; repeat split;
    solve [vm_compute; reflexivity | vm_compute; discriminate].
Defined.

Lemma colon_keys_order_as_text_witness :
  key_lt (ip_sort_key "2001:db8::/32") (ip_sort_key "::/0") =
  String.ltb "2001:db8::/32" "::/0".
Proof.
  assert (H : occurs ":" (Str.partition0 "/" "2001:db8::/32") = true)
    by (vm_compute; reflexivity).
  apply (proj1 (colon_keys_order_as_text "2001:db8::/32" H)).
  vm_compute. reflexivity.
Defined.

Lemma parse_rib_to_dict_contents_witness :
  (is_Some (parse_rib_to_dict
              [("10.10.0.0/24", Single 5); ("10.2.0.0/24", AsSet {[5; 7]});
               ("::/0", Single 9)] !! 7) <->
   exists p o, (p, o) ∈ [("10.10.0.0/24", Single 5); ("10.2.0.0/24", AsSet {[5; 7]});
                         ("::/0", Single 9)] /\ originates o 7) /\
  (forall p, p ∈ default [] (parse_rib_to_dict
                              [("10.10.0.0/24", Single 5); ("10.2.0.0/24", AsSet {[5; 7]});
                               ("::/0", Single 9)] !! 7) <->
             exists o, (p, o) ∈ [("10.10.0.0/24", Single 5); ("10.2.0.0/24", AsSet {[5; 7]});
                                 ("::/0", Single 9)] /\ originates o 7).
Proof.
  apply (parse_rib_to_dict_contents
           [("10.10.0.0/24", Single 5); ("10.2.0.0/24", AsSet {[5; 7]}); ("::/0", Single 9)]
           7).
  apply (bool_decide_unpack _). vm_compute. reflexivity.
Defined.

Lemma even_prefixes_contents_witness :
  exists even,
    build_asn_to_even_prefixes unit colon_ipv6
      (<[5 := ["10.2.0.0/24"]]> {[9 := ["::/0"]]}) = Ok even /\
    ("10.2.0." ∈ default ∅ (even !! 5) <->
     exists ps p toks,
       (<[5 := ["10.2.0.0/24"]]> {[9 := ["::/0"]]} : gmap Z (list string)) !! 5 = Some ps /\
       p ∈ ps /\ extract_even_ipv4_networks unit colon_ipv6 p = Ok toks /\
       In "10.2.0." toks).
Proof.
  destruct (even_prefixes_ok unit colon_ipv6
              (<[5 := ["10.2.0.0/24"]]> {[9 := ["::/0"]]})) as (even & E & _).
  - intros asn ps p H Hp. apply lookup_insert_Some in H as [[<- <-] | [_ H]].
    + apply list_elem_of_singleton in Hp as ->. eexists. vm_compute. reflexivity.
    + apply lookup_singleton_Some in H as [<- <-].
      apply list_elem_of_singleton in Hp as ->. eexists. vm_compute. reflexivity.
  - exists even. split; [exact E |].
    exact (even_prefixes_contents unit colon_ipv6 _ even 5 "10.2.0." E).
Defined.

Lemma bad_prefix_aborts_build_witness :
  build_asn_to_even_prefixes unit colon_ipv6
    (<[5 := ["10.2.0.0/24"]]> {[1 := ["not-a-prefix"]]}) = Raise ValueError /\
  build_asn_to_regex unit colon_ipv6 alternation
    (<[5 := ["10.2.0.0/24"]]> {[1 := ["not-a-prefix"]]}) = Raise ValueError.
Proof.
  apply (bad_prefix_aborts_build unit colon_ipv6 alternation
           (<[5 := ["10.2.0.0/24"]]> {[1 := ["not-a-prefix"]]})
           1 ["not-a-prefix"] "not-a-prefix" ValueError).
  - vm_compute. reflexivity.
  - left.
  - vm_compute. reflexivity.
Defined.

Lemma regex_keys_are_ipv4_origins_witness :
  exists regexes,
    build_asn_to_regex unit colon_ipv6 alternation
      (parse_rib_to_dict
         [("10.10.0.0/24", Single 5); ("10.2.0.0/24", AsSet {[5; 7]}); ("::/0", Single 9)])
    = Ok regexes /\
    forall asn,
      is_Some (regexes !! asn) <->
      exists p o net4,
        (p, o) ∈ [("10.10.0.0/24", Single 5); ("10.2.0.0/24", AsSet {[5; 7]});
                  ("::/0", Single 9)] /\
        originates o asn /\ ip_network unit colon_ipv6 p false = Ok (V4 unit net4).
Proof.
  apply (regex_keys_are_ipv4_origins unit colon_ipv6 alternation
           [("10.10.0.0/24", Single 5); ("10.2.0.0/24", AsSet {[5; 7]}); ("::/0", Single 9)]).
  - apply (bool_decide_unpack _). vm_compute. reflexivity.
  - intros p o H. apply list_elem_of_In in H. cbn [In] in H.
    destruct H as [H | [H | [H | []]]]; injection H as <- <-;
      eexists; vm_compute; reflexivity.
Defined.

Lemma build_filename_same_slot_witness :
  build_filename 1 (Datetime.mk 739925 13 45 12 0) =
  build_filename 5 (Datetime.mk 739925 12 0 0 0).
Proof.
  apply build_filename_same_slot.
  - unfold valid_now, Datetime.MAXORDINAL. simpl. lia.
  - unfold valid_now, Datetime.MAXORDINAL. simpl. lia.
  - lia.
  - lia.
  - reflexivity.
  - vm_compute. reflexivity.
Defined.

Lemma coarse_token_unique_witness : "10.0." = "10.0.".
Proof.
  apply (coarse_token_unique unit colon_ipv6 "10.0.0.0/15" (Ip.mkNet 167772160 15)
           ["10.0."; "10.1."] "10.0." "10.0." 167772161).
  - vm_compute. reflexivity.
  - simpl. lia.
  - vm_compute. reflexivity.
  - left. reflexivity.
  - left. reflexivity.
  - split; [vm_compute; discriminate | vm_compute; reflexivity].
  - vm_compute. reflexivity.
  - vm_compute. reflexivity.
Defined.

Lemma fine_tokens_match_longer_octet_witness :
  Ip.contains (Ip.mkNet 3232235776 29) 3232235786 = false /\
  In "192.168.1.1" (map Ip.string_from_ip_int (fine_addresses (Ip.mkNet 3232235776 29))) /\
  Str.startswith "192.168.1.10" "192.168.1.1" = true.
Proof.
  assert (Hout : Ip.contains (Ip.mkNet 3232235776 29) 3232235786 = false)
    by (vm_compute; reflexivity).
  split; [exact Hout |].
  apply (fine_tokens_match_longer_octet unit colon_ipv6 "192.168.1.0/29"
           (Ip.mkNet 3232235776 29)
           (map Ip.string_from_ip_int (fine_addresses (Ip.mkNet 3232235776 29)))
           3232235777 3232235786 0).
  - vm_compute. reflexivity.
  - simpl. lia.
  - vm_compute. reflexivity.
  - vm_compute. reflexivity.
  - split; [vm_compute; discriminate | vm_compute; reflexivity].
  - vm_compute. reflexivity.
  - vm_compute. discriminate.
  - lia.
  - vm_compute. reflexivity.
  - exact Hout.
Defined.

Lemma prefix_lists_sorted_witness :
  parse_rib_to_dict
    [("10.10.0.0/24", Single 5); ("2001:db8::/32", Single 5);
     ("10.2.0.0/24", AsSet {[5; 7]}); ("::/0", Single 5)] !! 5 =
    Some ["10.2.0.0/24"; "10.10.0.0/24"; "2001:db8::/32"; "::/0"] /\
  (forall x y, ipv4_text "10.2.0.0/24" x -> ipv4_text "10.10.0.0/24" y -> x <= y) /\
  (forall s, s ∈ ["10.2.0.0/24"; "10.10.0.0/24"; "2001:db8::/32"; "::/0"] ->
             prefix_text s).
Proof.
  assert (Hps : parse_rib_to_dict
                  [("10.10.0.0/24", Single 5); ("2001:db8::/32", Single 5);
                   ("10.2.0.0/24", AsSet {[5; 7]}); ("::/0", Single 5)] !! 5 =
                Some ["10.2.0.0/24"; "10.10.0.0/24"; "2001:db8::/32"; "::/0"])
    by (vm_compute; reflexivity).
  destruct (prefix_lists_sorted
              [("10.10.0.0/24", Single 5); ("2001:db8::/32", Single 5);
               ("10.2.0.0/24", AsSet {[5; 7]}); ("::/0", Single 5)]
              5 ["10.2.0.0/24"; "10.10.0.0/24"; "2001:db8::/32"; "::/0"])
    as (_ & Htexts & Horder).
  - apply (bool_decide_unpack _). vm_compute. reflexivity.
  - intros p o H. apply list_elem_of_In in H. cbn [In] in H.
    destruct H as [H | [H | [H | [H | []]]]]; injection H as <- <-.
    + left. exists 168427520. vm_compute. reflexivity.
    + right. vm_compute. reflexivity.
    + left. exists 167903232. vm_compute. reflexivity.
    + right. vm_compute. reflexivity.
  - exact Hps.
  - split; [exact Hps |]. split; [|exact Htexts].
    assert (H01 : (0 < 1)%nat) by lia.
    exact (proj1 (Horder 0%nat 1%nat "10.2.0.0/24" "10.10.0.0/24" H01 eq_refl eq_refl)).
Defined.

Lemma as_set_prefix_listed_per_member_witness :
  (exists ps,
     parse_rib_to_dict
       [("10.10.0.0/24", Single 5); ("10.2.0.0/24", AsSet {[5; 7]}); ("::/0", Single 9)]
       !! 7 = Some ps /\
     count_occ string_dec ps "10.2.0.0/24" = 1%nat) /\
  "10.2.0.0/24" ∉
    default [] (parse_rib_to_dict
                  [("10.10.0.0/24", Single 5); ("10.2.0.0/24", AsSet {[5; 7]});
                   ("::/0", Single 9)] !! 9).
Proof.
  assert (Hnd : NoDup [("10.10.0.0/24", Single 5); ("10.2.0.0/24", AsSet {[5; 7]});
                       ("::/0", Single 9)].*1)
    by (apply (bool_decide_unpack _); vm_compute; reflexivity).
  assert (Hin : ("10.2.0.0/24", AsSet {[5; 7]}) ∈
                [("10.10.0.0/24", Single 5); ("10.2.0.0/24", AsSet {[5; 7]});
                 ("::/0", Single 9)])
    by (right; left).
  split.
  - apply (proj1 (as_set_prefix_listed_per_member _ "10.2.0.0/24" {[5; 7]} 7 Hnd Hin)).
    apply elem_of_union. right. now apply elem_of_singleton.
  - apply (proj2 (as_set_prefix_listed_per_member _ "10.2.0.0/24" {[5; 7]} 9 Hnd Hin)).
    intros H9. apply elem_of_union in H9 as [H9 | H9];
      apply elem_of_singleton in H9; discriminate.
Defined.
